(** * sqlite-client: the schema-version migration runner and its storage helpers

    A shallow embedding of [options.go] and [client.go] of
    github.com/sillyhatxu/sqlite-client.

    Go values are modelled as follows.
    - [string] is [String.string] (a sequence of bytes), [uint64] and [int64]
      are [Z] with the wrap-around written out, [error] is [option error]
      with [None] for [nil], a slice is [slice A] with [None] for the nil
      slice.
    - The database, the file system and the clock are external.  Their state
      is the record [World]; what they answer, and when they fail, is given by
      the record [Env].  Every call that crosses that border is appended to
      the [trace] of the world together with its outcome, so the oracle of
      [Env] can make a call fail depending on everything that happened before.
    - Methods of [*SqliteClient] are state transformers [M A].  The receiver's
      configuration is the record [Config]. *)

From Stdlib Require Import ZArith List String Ascii Bool Lia.
From Stdlib Require Import DecimalString DecimalPos DecimalN.
Import ListNotations.

#[local] Open Scope string_scope.
#[local] Open Scope Z_scope.

(** ** Constants of [options.go] *)

Definition nl : string := String (ascii_of_nat 10) EmptyString.
Definition tab : string := String (ascii_of_nat 9) EmptyString.

Definition SchemaVersionStatusSuccess : string := "SUCCESS".
Definition SchemaVersionStatusError : string := "ERROR".

Definition SqliteMasterSQL : string :=
  nl ++ tab ++ tab ++
  "SELECT count(1) FROM sqlite_master WHERE type='table' AND name = ?" ++
  nl ++ tab.

Definition InsertSchemaVersionSQL : string :=
  nl ++ tab ++ tab ++
  "INSERT INTO schema_version (script, checksum, execution_time, status) values (?, ?, ?, ?)" ++
  nl ++ tab.

Definition DDLSchemaVersion : string :=
  nl ++ tab ++ tab ++ "CREATE TABLE IF NOT EXISTS schema_version" ++
  nl ++ tab ++ tab ++ "(" ++
  nl ++ tab ++ tab ++ "  id             INTEGER PRIMARY KEY AUTOINCREMENT," ++
  nl ++ tab ++ tab ++ "  script         TEXT    NOT NULL," ++
  nl ++ tab ++ tab ++ "  checksum       TEXT    NOT NULL," ++
  nl ++ tab ++ tab ++ "  execution_time TEXT    NOT NULL," ++
  nl ++ tab ++ tab ++ "  status         TEXT    NOT NULL," ++
  nl ++ tab ++ tab ++ "  created_time   datetime default current_timestamp" ++
  nl ++ tab ++ tab ++ ");" ++
  nl ++ tab.

(** The query of [SchemaVersionArray]. *)
Definition SelectSchemaVersionSQL : string := "select * from schema_version".

(** ** Data *)

(** [type SchemaVersion struct]; [CreatedTime] is a point in time, kept as
    the number the clock of the database gave. *)
Record SchemaVersion : Type := mkSchemaVersion {
  Id : Z;
  Script : string;
  Checksum : string;
  ExecutionTime : string;
  Status : string;
  CreatedTime : Z
}.

(** The zero value [SchemaVersion{}]. *)
Definition zeroSchemaVersion : SchemaVersion :=
  mkSchemaVersion 0 "" "" "" "" 0.

(** Go errors.  [StorageErr] stands for the opaque errors of [database/sql],
    [os] and [io/ioutil]; the other two are the errors this package builds
    with [fmt.Errorf], carrying the record that is formatted with [%#v]. *)
Inductive error : Type :=
| StorageErr (msg : string)
| AbnormalState (sv : SchemaVersion)
| FileChanged (sv : SchemaVersion).

(** A Go slice: [None] is the nil slice. *)
Definition slice (A : Type) : Type := option (list A).

Definition elems {A : Type} (s : slice A) : list A :=
  match s with
  | None => []
  | Some l => l
  end.

(** [append(s, x)] *)
Definition append {A : Type} (s : slice A) (x : A) : slice A :=
  Some (elems s ++ [x])%list.

(** ** Pure functions of [options.go] *)

(** [findByScript]: the first record whose [Script] is [script].  The Go
    result [(true, &sv)] is [Some sv], and [(false, nil)] is [None]. *)
Fixpoint findByScript_range (script : string) (l : list SchemaVersion)
  : option SchemaVersion :=
  match l with
  | [] => None
  | sv :: rest =>
      if String.eqb (Script sv) script then Some sv
      else findByScript_range script rest
  end.

Definition findByScript (script : string) (svArray : slice SchemaVersion)
  : option SchemaVersion :=
  findByScript_range script (elems svArray).

(** [hasError]: the error names the first record whose status is ERROR. *)
Fixpoint hasError_range (l : list SchemaVersion) : option error :=
  match l with
  | [] => None
  | sv :: rest =>
      if String.eqb (Status sv) SchemaVersionStatusError
      then Some (AbnormalState sv)
      else hasError_range rest
  end.

Definition hasError (svArray : slice SchemaVersion) : option error :=
  hasError_range (elems svArray).

(** [hash/fnv]: [fnv.New64()] is 64-bit FNV-1; [Write] multiplies by the
    prime modulo 2^64 and then xors the byte in, and never returns an
    error. *)
Definition offset64 : Z := 14695981039346656037.
Definition prime64 : Z := 1099511628211.
Definition two64 : Z := 2 ^ 64.

Definition byte_of (c : ascii) : Z := Z.of_nat (nat_of_ascii c).

Fixpoint fnv64_Write (h : Z) (s : string) : Z :=
  match s with
  | EmptyString => h
  | String c rest =>
      fnv64_Write (Z.lxor ((h * prime64) mod two64) (byte_of c)) rest
  end.

(** [hash64]: [h.Write] has no failing path, so the error is always nil. *)
Definition hash64 (s : string) : Z * option error :=
  let h := offset64 in
  let h' := fnv64_Write h s in
  (h', None).

(** [strconv.FormatUint(n, 10)] *)
Definition FormatUint10 (n : Z) : string :=
  NilZero.string_of_uint (N.to_uint (Z.to_N n)).

(** [strings.HasSuffix] *)
Definition HasSuffix (s suffix : string) : bool :=
  (Nat.leb (String.length suffix) (String.length s)) &&
  String.eqb
    (substring (String.length s - String.length suffix)
               (String.length suffix) s)
    suffix.

(** [shortDur]; [d.String()] of package [time] is the argument
    [durString]. *)
Definition shortDur (durString : Z -> string) (d : Z) : string :=
  let s := durString d in
  let s := if HasSuffix s "m0s"
           then substring 0 (String.length s - 2) s else s in
  let s := if HasSuffix s "h0m"
           then substring 0 (String.length s - 2) s else s in
  s.

(** ** Configuration ([options.go]) *)

(** [type Config struct]; durations are nanoseconds. *)
Record Config : Type := mkConfig {
  maxIdleConns : Z;
  maxOpenConns : Z;
  connMaxLifetime : Z;
  attempts : Z;
  delay : Z;
  ddlPath : string;
  flyway : bool
}.

Definition Option : Type := Config -> Config.

(** [DDLPath]: a non-empty path switches the migrations on. *)
Definition DDLPath (path : string) : Option :=
  fun c =>
    let c := mkConfig (maxIdleConns c) (maxOpenConns c) (connMaxLifetime c)
                      (attempts c) (delay c) path (flyway c) in
    if negb (String.eqb path "")
    then mkConfig (maxIdleConns c) (maxOpenConns c) (connMaxLifetime c)
                  (attempts c) (delay c) (ddlPath c) true
    else c.

(** The other options store their argument. *)
Definition MaxIdleConns (n : Z) : Option :=
  fun c => mkConfig n (maxOpenConns c) (connMaxLifetime c)
             (attempts c) (delay c) (ddlPath c) (flyway c).

Definition MaxOpenConns (n : Z) : Option :=
  fun c => mkConfig (maxIdleConns c) n (connMaxLifetime c)
             (attempts c) (delay c) (ddlPath c) (flyway c).

Definition ConnMaxLifetime (d : Z) : Option :=
  fun c => mkConfig (maxIdleConns c) (maxOpenConns c) d
             (attempts c) (delay c) (ddlPath c) (flyway c).

Definition Attempts (n : Z) : Option :=
  fun c => mkConfig (maxIdleConns c) (maxOpenConns c) (connMaxLifetime c)
             n (delay c) (ddlPath c) (flyway c).

Definition Delay (d : Z) : Option :=
  fun c => mkConfig (maxIdleConns c) (maxOpenConns c) (connMaxLifetime c)
             (attempts c) d (ddlPath c) (flyway c).

(** [type SqliteClient struct], without the handle and the mutex, which
    live in the world. *)
Record SqliteClient : Type := mkSqliteClient {
  dataSourceName : string;
  config : Config
}.

(** [NewSqliteClient] *)
Definition NewSqliteClient (dsn : string) (opts : list Option)
  : SqliteClient :=
  let config :=
    mkConfig 50 100 (24 * 3600 * 1000000000) 3 (200 * 1000000) "" false in
  mkSqliteClient dsn (fold_left (fun c opt => opt c) opts config).

(** ** The world outside the program *)

(** An argument or a column of a statement ([interface{}]). *)
Inductive value : Type :=
| VText (s : string)
| VInt (n : Z).

Definition Row : Type := list value.

(** The calls that leave the program. *)
Inductive Op : Type :=
| OpPing                                        (* sc.db.Ping() *)
| OpOpen (dsn : string)                         (* retry.Do(sql.Open ...) *)
| OpExec (stmt : string)                        (* db.Exec(ddl) *)
| OpQuery (q : string) (args : list value)      (* db.Query(query, args...) *)
| OpNext (q : string)                           (* rows.Next() *)
| OpScan (row : Row)                            (* rows.Scan(...) *)
| OpPrepare (sql : string)                      (* db.Prepare(sql) *)
| OpStmtExec (sql : string) (args : list value) (* stm.Exec(args...) *)
| OpBegin                                       (* db.Begin() *)
| OpCommit                                      (* tx.Commit() *)
| OpRollback                                    (* tx.Rollback() *)
| OpQueryRowScan (sql : string) (args : list value)
                                                (* tx.QueryRow(...).Scan(&n) *)
| OpReadDir (path : string)                     (* ioutil.ReadDir *)
| OpReadFile (path : string).                   (* ioutil.ReadFile *)

Inductive logger : Type :=
| Logrus_Errorf
| Logrus_Infof
| Log_Println.

(** What an observer of the program sees: the calls with their outcome and
    the lines handed to the loggers. *)
Inductive Event : Type :=
| Call (op : Op) (res : option error)
| Log (l : logger) (format : string) (e : option error).

(** The table [schema_version] (whether it exists, its rows in insertion
    order, the next AUTOINCREMENT id) and the history of the run.  The rest
    of the database is not represented: what user statements did to it is
    in the trace. *)
Record World : Type := mkWorld {
  has_ledger : bool;
  ledger : list SchemaVersion;
  next_id : Z;
  trace : list Event
}.

(** The environment: failures of the outside and its answers.
    [fault op w] is the error with which call [op] fails when it is made in
    world [w] ([None]: the call is served).  [dir] and [file] are the
    script directory; a fixed environment is a directory that does not
    change. *)
Record Env : Type := mkEnv {
  fault : Op -> World -> option error;
  dir : string -> list string;
  file : string -> string;
  now : World -> Z;
  elapsed : World -> Z;
  durString : Z -> string;
  user_rows : string -> list value -> World -> list Row;
  user_result : string -> list value -> World -> Z * Z;
  user_count : string -> list value -> World -> Z
}.

Definition record (ev : Event) (w : World) : World :=
  mkWorld (has_ledger w) (ledger w) (next_id w) (trace w ++ [ev])%list.

(** SQLite turns an argument bound to a TEXT column into text. *)
Definition text_of_value (v : value) : string :=
  match v with
  | VText s => s
  | VInt n => NilZero.string_of_int (Z.to_int n)
  end.

Definition no_such_table : error :=
  StorageErr "no such table: schema_version".

Definition wrong_arguments : error :=
  StorageErr "sql: wrong number of arguments".

Definition scan_error : error :=
  StorageErr "sql: Scan error".

Definition row_of_sv (sv : SchemaVersion) : Row :=
  [VInt (Id sv); VText (Script sv); VText (Checksum sv);
   VText (ExecutionTime sv); VText (Status sv); VInt (CreatedTime sv)].

(** What [rows.Scan(&sv.Id, &sv.Script, ...)] stores. *)
Definition sv_of_row (r : Row) : option SchemaVersion :=
  match r with
  | [VInt i; VText s; VText c; VText t; VText st; VInt ct] =>
      Some (mkSchemaVersion i s c t st ct)
  | _ => None
  end.

(** ** The state monad of the methods *)

Definition M (A : Type) : Type := World -> A * World.

Definition ret {A : Type} (a : A) : M A := fun w => (a, w).

Definition bind {A B : Type} (c : M A) (k : A -> M B) : M B :=
  fun w => let (a, w') := c w in k a w'.

Notation "x <- c ;; k" := (bind c (fun x => k))
  (at level 61, c at next level, right associativity).
Notation "c ;;; k" := (bind c (fun _ => k))
  (at level 61, right associativity).

(** ** Calls to the outside *)

Section Client.

Variable env : Env.
Variable sc : SqliteClient.

(** Failures the database answers by itself: a statement over
    [schema_version] needs the table, the insert needs its four
    arguments. *)
Definition inherent (op : Op) (w : World) : option error :=
  match op with
  | OpQuery q _ =>
      if String.eqb q SelectSchemaVersionSQL && negb (has_ledger w)
      then Some no_such_table else None
  | OpPrepare sql =>
      if String.eqb sql InsertSchemaVersionSQL && negb (has_ledger w)
      then Some no_such_table else None
  | OpStmtExec sql args =>
      if String.eqb sql InsertSchemaVersionSQL
      then if negb (has_ledger w) then Some no_such_table
           else if Nat.eqb (List.length args) 4 then None
                else Some wrong_arguments
      else None
  | _ => None
  end.

Definition outcome (op : Op) (w : World) : option error :=
  match fault env op w with
  | Some e => Some e
  | None => inherent op w
  end.

(** What a served call does to [schema_version]. *)
Definition effect (op : Op) (w : World) : World :=
  match op with
  | OpExec stmt =>
      if String.eqb stmt DDLSchemaVersion
      then mkWorld true (ledger w) (next_id w) (trace w)
      else w
  | OpStmtExec sql [a; b; c; d] =>
      if String.eqb sql InsertSchemaVersionSQL
      then mkWorld (has_ledger w)
             (ledger w ++
              [mkSchemaVersion (next_id w) (text_of_value a)
                 (text_of_value b) (text_of_value c) (text_of_value d)
                 (now env w)])%list
             (next_id w + 1) (trace w)
      else w
  | _ => w
  end.

Definition call (op : Op) : M (option error) :=
  fun w =>
    let r := outcome op w in
    let w' := match r with None => effect op w | Some _ => w end in
    (r, record (Call op r) w').

Definition log (l : logger) (format : string) (e : option error) : M unit :=
  fun w => (tt, record (Log l format e) w).


(** ** [client.go] *)

(** [OpenDataSource]: [retry.Do] around [sql.Open] is one call to the
    outside; when it reports no error it has stored a handle, so the nil
    check after it never fires. *)
Definition OpenDataSource : M (option error) :=
  call (OpOpen (dataSourceName sc)).

Definition Ping : M (option error) := call OpPing.

(** [GetDB]: a failed ping is logged and answered by opening the data
    source again. *)
Definition GetDB : M (option error) :=
  err <- Ping ;;
  match err with
  | Some e =>
      log Logrus_Errorf "ping database error. %v" (Some e) ;;;
      err <- OpenDataSource ;;
      match err with
      | Some e' =>
          log Logrus_Errorf "mc.OpenDataSource error; SqliteClient : %#v,%v"
            (Some e') ;;;
          ret (Some e')
      | None => ret None
      end
  | None => ret None
  end.

Definition ExecDDL (ddl : string) : M (option error) :=
  err <- GetDB ;;
  match err with
  | Some e => ret (Some e)
  | None =>
      log Logrus_Infof "exec ddl : " None ;;;
      log Logrus_Infof ddl None ;;;
      log Logrus_Infof "--------------------" None ;;;
      call (OpExec ddl)
  end.

(** The [sql.Result] of [stm.Exec]: last insert id and rows affected.  The
    driver (mattn/go-sqlite3) returns both without an error. *)
Definition sql_result (sql : string) (args : list value) (w : World)
  : Z * Z :=
  if String.eqb sql InsertSchemaVersionSQL then (next_id w, 1)
  else user_result env sql args w.

Definition stm_Exec (sql : string) (args : list value)
  : M ((Z * Z) * option error) :=
  fun w =>
    let res := sql_result sql args w in
    let (err, w') := call (OpStmtExec sql args) w in
    ((res, err), w').

Definition Insert (sql : string) (args : list value)
  : M (Z * option error) :=
  err <- GetDB ;;
  match err with
  | Some _ => ret (0, None)
  | None =>
      err <- call (OpPrepare sql) ;;
      match err with
      | Some e =>
          log Logrus_Errorf "prepare sqlite error. %v" (Some e) ;;;
          ret (0, Some e)
      | None =>
          r <- stm_Exec sql args ;;
          match snd r with
          | Some e =>
              log Logrus_Errorf "insert data error. %v" (Some e) ;;;
              ret (0, Some e)
          | None => ret (fst (fst r), None)
          end
      end
  end.

Definition Update (sql : string) (args : list value)
  : M (Z * option error) :=
  err <- GetDB ;;
  match err with
  | Some _ => ret (0, None)
  | None =>
      err <- call (OpPrepare sql) ;;
      match err with
      | Some e =>
          log Logrus_Errorf "prepare sqlite error. %v" (Some e) ;;;
          ret (0, Some e)
      | None =>
          r <- stm_Exec sql args ;;
          match snd r with
          | Some e =>
              log Logrus_Errorf "update data error. %v" (Some e) ;;;
              ret (0, Some e)
          | None => ret (snd (fst r), None)
          end
      end
  end.

Definition Delete (sql : string) (args : list value)
  : M (Z * option error) :=
  err <- GetDB ;;
  match err with
  | Some _ => ret (0, None)
  | None =>
      err <- call (OpPrepare sql) ;;
      match err with
      | Some e =>
          log Logrus_Errorf "prepare sqlite error. %v" (Some e) ;;;
          ret (0, Some e)
      | None =>
          r <- stm_Exec sql args ;;
          match snd r with
          | Some e =>
              log Logrus_Errorf "delete data error. %v" (Some e) ;;;
              ret (0, Some e)
          | None => ret (snd (fst r), None)
          end
      end
  end.

(** A served [tx.Rollback()] puts [schema_version] back to what it was when
    the transaction began. *)
Definition rollback_to (w0 : World) : M unit :=
  fun w => (tt, mkWorld (has_ledger w0) (ledger w0) (next_id w0) (trace w)).

(** [Transaction]; the callback is a method body run on the transaction. *)
Definition Transaction (callback : M (option error)) : M (option error) :=
  err <- GetDB ;;
  match err with
  | Some _ => ret None
  | None =>
      fun w0 =>
        (err <- call OpBegin ;;
         match err with
         | Some e =>
             log Logrus_Errorf "sqlite client get transaction error. %v"
               (Some e) ;;;
             ret (Some e)
         | None =>
             err <- callback ;;
             match err with
             | Some e =>
                 log Logrus_Errorf "transaction data error. %v" (Some e) ;;;
                 rerr <- call OpRollback ;;
                 match rerr with
                 | None => rollback_to w0
                 | Some _ => ret tt
                 end ;;;
                 ret (Some e)
             | None => call OpCommit
             end
         end) w0
  end.

(** The rows a served query returns: [schema_version] in insertion order,
    the count of [sqlite_master] for [schema_version], and the answer of the
    environment for everything else. *)
Definition result_rows (q : string) (args : list value) (w : World)
  : list Row :=
  if String.eqb q SelectSchemaVersionSQL
  then map row_of_sv (ledger w)
  else if String.eqb q SqliteMasterSQL
       then match args with
            | [VText t] =>
                if String.eqb t "schema_version"
                then [[VInt (if has_ledger w then 1 else 0)]]
                else user_rows env q args w
            | _ => user_rows env q args w
            end
       else user_rows env q args w.

(** The loop [for rows.Next() { ... } return rows.Err()] of [Query]: a
    failing [Next] ends the loop and is what [rows.Err()] returns.  The
    variables the callback captures are the accumulator [acc]. *)
Fixpoint Query_range {A : Type} (q : string)
  (fieldFunc : Row -> A -> M (A * option error))
  (rows : list Row) (acc : A) : M (A * option error) :=
  match rows with
  | [] =>
      err <- call (OpNext q) ;;
      ret (acc, err)
  | r :: rest =>
      err <- call (OpNext q) ;;
      match err with
      | Some e => ret (acc, Some e)
      | None =>
          res <- fieldFunc r acc ;;
          match snd res with
          | Some e => ret (fst res, Some e)
          | None => Query_range q fieldFunc rest (fst res)
          end
      end
  end.

Definition Query {A : Type} (query : string)
  (fieldFunc : Row -> A -> M (A * option error))
  (args : list value) (acc : A) : M (A * option error) :=
  err <- GetDB ;;
  match err with
  | Some e => ret (acc, Some e)
  | None =>
      fun w =>
        (err <- call (OpQuery query args) ;;
         match err with
         | Some e => ret (acc, Some e)
         | None => Query_range query fieldFunc (result_rows query args w) acc
         end) w
  end.

(** [Count]: the error of the scan is [countErr], but what is logged and
    returned is [err], which is nil once [Begin] has succeeded.  The
    deferred [tx.Commit()] runs on the way out, its result unused. *)
Definition Count (sql : string) (args : list value) : M (Z * option error) :=
  err <- GetDB ;;
  match err with
  | Some e => ret (0, Some e)
  | None =>
      err <- call OpBegin ;;
      match err with
      | Some e =>
          log Log_Println "sqlite client get connection error." (Some e) ;;;
          ret (0, Some e)
      | None =>
          fun w =>
            (let count := user_count env sql args w in
             countErr <- call (OpQueryRowScan sql args) ;;
             match countErr with
             | Some _ =>
                 log Log_Println "Query count error." err ;;;
                 call OpCommit ;;;
                 ret (0, err)
             | None =>
                 call OpCommit ;;;
                 ret (count, None)
             end) w
      end
  end.

(** ** [options.go]: the schema-version ledger and the migration runner *)

(** [rows.Scan(&count)]: a failed scan leaves [count] as it was. *)
Definition scan_count (row : Row) (count : Z) : M (Z * option error) :=
  err <- call (OpScan row) ;;
  match err with
  | Some e => ret (count, Some e)
  | None =>
      match row with
      | [VInt n] => ret (n, None)
      | _ => ret (count, Some scan_error)
      end
  end.

Definition HasTable (table : string) : M (bool * option error) :=
  res <- Query SqliteMasterSQL scan_count [VText table] 0 ;;
  match snd res with
  | Some e => ret (false, Some e)
  | None => ret (fst res >? 0, None)
  end.

(** The callback of [SchemaVersionArray]: the scanned record is appended
    whether the scan failed or not, and the error of the scan is returned. *)
Definition scan_schema_version (row : Row) (svArray : slice SchemaVersion)
  : M (slice SchemaVersion * option error) :=
  err <- call (OpScan row) ;;
  let res :=
    match err with
    | Some e => (zeroSchemaVersion, Some e)
    | None =>
        match sv_of_row row with
        | Some sv => (sv, None)
        | None => (zeroSchemaVersion, Some scan_error)
        end
    end in
  ret (append svArray (fst res), snd res).

Definition SchemaVersionArray : M (slice SchemaVersion * option error) :=
  res <- Query SelectSchemaVersionSQL scan_schema_version [] None ;;
  match snd res with
  | Some e => ret (None, Some e)
  | None =>
      let svArray := fst res in
      let svArray := match svArray with
                     | None => Some []
                     | Some l => Some l
                     end in
      ret (svArray, None)
  end.

Definition initialSchemaVersion : M (option error) :=
  res <- HasTable "schema_version" ;;
  match snd res with
  | Some e => ret (Some e)
  | None =>
      if fst res then ret None
      else ExecDDL DDLSchemaVersion
  end.

(** [insertSchemaVersion] has no result: an error of [Insert] is logged. *)
Definition insertSchemaVersion (schemaVersion : SchemaVersion) : M unit :=
  res <- Insert InsertSchemaVersionSQL
           [VText (Script schemaVersion); VText (Checksum schemaVersion);
            VText (ExecutionTime schemaVersion);
            VText (Status schemaVersion)] ;;
  match snd res with
  | Some e => log Logrus_Errorf "insert schema version error. %v" (Some e)
  | None => ret tt
  end.

(** [time.Since(execTime)] *)
Definition since_execTime : M Z := fun w => (elapsed env w, w).

Definition script_path (name : string) : string :=
  ddlPath (config sc) ++ "/" ++ name.

(** [readFile]: one script of the directory, against the records fetched at
    the start of the run. *)
Definition readFile (name : string) (svArray : slice SchemaVersion)
  : M (option error) :=
  err <- call (OpReadFile (script_path name)) ;;
  match err with
  | Some e => ret (Some e)
  | None =>
      let b := file env (script_path name) in
      let (checksum, err) := hash64 b in
      match err with
      | Some e => ret (Some e)
      | None =>
          match findByScript name svArray with
          | Some sv =>
              if negb (String.eqb (Checksum sv) (FormatUint10 checksum))
              then ret (Some (FileChanged sv))
              else ret None
          | None =>
              err <- ExecDDL b ;;
              let status := match err with
                            | None => SchemaVersionStatusSuccess
                            | Some _ => SchemaVersionStatusError
                            end in
              d <- since_execTime ;;
              insertSchemaVersion
                (mkSchemaVersion 0 name (FormatUint10 checksum)
                   (shortDur (durString env) d) status 0) ;;;
              ret err
          end
      end
  end.

(** The loop of [executeFlayway] over the listed files. *)
Fixpoint executeFlayway_range (files : list string)
  (svArray : slice SchemaVersion) : M (option error) :=
  match files with
  | [] => ret None
  | f :: rest =>
      err <- readFile f svArray ;;
      match err with
      | Some e => ret (Some e)
      | None => executeFlayway_range rest svArray
      end
  end.

(** [executeFlayway]: a directory that cannot be listed ends the run with
    nil, before the ledger is looked at. *)
Definition executeFlayway : M (option error) :=
  err <- call (OpReadDir (ddlPath (config sc))) ;;
  match err with
  | Some _ => ret None
  | None =>
      let files := dir env (ddlPath (config sc)) in
      res <- SchemaVersionArray ;;
      match snd res with
      | Some e => ret (Some e)
      | None =>
          let svArray := fst res in
          match hasError svArray with
          | Some e => ret (Some e)
          | None => executeFlayway_range files svArray
          end
      end
  end.

Definition initialFlayway : M (option error) :=
  if negb (flyway (config sc)) then ret None
  else
    err <- initialSchemaVersion ;;
    match err with
    | Some e => ret (Some e)
    | None =>
        err <- executeFlayway ;;
        match err with
        | Some e => ret (Some e)
        | None => ret None
        end
    end.

(** [Initial] of [client.go] (the mutex it holds is not modelled: one
    thread). *)
Definition Initial : M (option error) :=
  err <- OpenDataSource ;;
  match err with
  | Some e =>
      log Logrus_Errorf "sc.OpenDataSource error; MysqlClient : %#v,%v"
        (Some e) ;;;
      ret (Some e)
  | None =>
      err <- Ping ;;
      match err with
      | Some e =>
          log Logrus_Errorf "ping database error; %v" (Some e) ;;;
          ret (Some e)
      | None =>
          err <- initialFlayway ;;
          match err with
          | Some e =>
              log Logrus_Errorf "initial flayway error; %v" (Some e) ;;;
              ret (Some e)
          | None => ret None
          end
      end
  end.

End Client.

(** ** Vocabulary of the statements *)

(** The part of the world that is data: the table [schema_version]. *)
Definition same_store (w w' : World) : Prop :=
  has_ledger w' = has_ledger w /\ ledger w' = ledger w /\
  next_id w' = next_id w.

(** An event that touches a migration script or records one: a file of the
    directory is read, a statement is executed, an insert is prepared or
    executed. *)
Definition touches_script (ev : Event) : bool :=
  match ev with
  | Call (OpReadFile _) _ => true
  | Call (OpExec _) _ => true
  | Call (OpPrepare _) _ => true
  | Call (OpStmtExec _ _) _ => true
  | _ => false
  end.

(** The calls that read the database: liveness check, query, iteration and
    scan of the rows. *)
Definition is_read (op : Op) : bool :=
  match op with
  | OpPing | OpQuery _ _ | OpNext _ | OpScan _ => true
  | _ => false
  end.

(** The calls that read the script directory. *)
Definition is_fs (op : Op) : bool :=
  match op with
  | OpReadDir _ | OpReadFile _ => true
  | _ => false
  end.

(** The calls by which [Insert] writes a row. *)
Definition is_append (op : Op) : bool :=
  match op with
  | OpPrepare _ | OpStmtExec _ _ => true
  | _ => false
  end.

(** The environment serves every call of a class. *)
Definition serves (env : Env) (cls : Op -> bool) : Prop :=
  forall op w, cls op = true -> fault env op w = None.

(** The checksum column [readFile] computes for a script of the directory. *)
Definition checksum_of (env : Env) (sc : SqliteClient) (name : string)
  : string :=
  FormatUint10 (fst (hash64 (file env (script_path sc name)))).

(** [readFile] skips the script: the first record of that name carries the
    checksum of the file. *)
Definition skips (env : Env) (sc : SqliteClient) (l : list SchemaVersion)
  (name : string) : bool :=
  match findByScript_range name l with
  | Some sv => String.eqb (Checksum sv) (checksum_of env sc name)
  | None => false
  end.

(** A failed call that a run reporting no error may contain: the listing of
    the directory, a liveness check, and the calls of an append (getting the
    handle, preparing and executing the insert). *)
Definition benign (ev : Event) : bool :=
  match ev with
  | Call (OpReadDir _) (Some _) => true
  | Call OpPing (Some _) => true
  | Call (OpOpen _) (Some _) => true
  | Call (OpPrepare sql) (Some _) => String.eqb sql InsertSchemaVersionSQL
  | Call (OpStmtExec sql _) (Some _) => String.eqb sql InsertSchemaVersionSQL
  | Call _ (Some _) => false
  | _ => true
  end.

(** [steps P w w']: [w'] continues the trace of [w] by events that all
    satisfy [P]. *)
Definition steps (P : Event -> bool) (w w' : World) : Prop :=
  exists evs, trace w' = (trace w ++ evs)%list /\ forallb P evs = true.

(** The table can only come into existence, and its rows only grow at the
    end. *)
Definition grows (w w' : World) : Prop :=
  (has_ledger w = true -> has_ledger w' = true) /\
  exists added, ledger w' = (ledger w ++ added)%list.

(** Events of the classes the statements speak about. *)
Definition handle_event (ev : Event) : bool :=
  match ev with
  | Call OpPing _ => true
  | Call (OpOpen _) _ => true
  | Log _ _ _ => true
  | _ => false
  end.

Definition read_event (ev : Event) : bool :=
  match ev with
  | Call op _ => is_read op
  | _ => false
  end || handle_event ev.

Definition quiet_event (ev : Event) : bool := negb (touches_script ev).

(** [reads w r w']: a method that only read the database went from [w] to
    [w'] and returned the error [r]; when it returned nil, whatever failed
    on the way was benign. *)
Definition reads (w : World) (r : option error) (w' : World) : Prop :=
  same_store w w' /\ steps read_event w w' /\
  (r = None -> steps benign w w').

Definition insert_args (sv : SchemaVersion) : list value :=
  [VText (Script sv); VText (Checksum sv);
   VText (ExecutionTime sv); VText (Status sv)].

(** [appended sv w w']: the ledger of [w'] is the one of [w] with one more
    row, which carries the script, checksum, duration and status of [sv] and
    the next id. *)
Definition appended (sv : SchemaVersion) (w w' : World) : Prop :=
  has_ledger w' = has_ledger w /\
  next_id w' = next_id w + 1 /\
  exists created,
    ledger w' =
    (ledger w ++
     [mkSchemaVersion (next_id w) (Script sv) (Checksum sv)
        (ExecutionTime sv) (Status sv) created])%list.

(** The record [readFile] hands to [insertSchemaVersion]. *)
Definition attempt (env : Env) (sc : SqliteClient) (name : string)
  (err : option error) (w : World) : SchemaVersion :=
  mkSchemaVersion 0 name (checksum_of env sc name)
    (shortDur (durString env) (elapsed env w))
    match err with
    | None => SchemaVersionStatusSuccess
    | Some _ => SchemaVersionStatusError
    end 0.

(** A row that a successful execution left in the ledger. *)
Definition applied (env : Env) (sc : SqliteClient) (r : SchemaVersion) : Prop :=
  Checksum r = checksum_of env sc (Script r) /\
  Status r = SchemaVersionStatusSuccess.

(** The events of a run that only reads: the database and the directory. *)
Definition looks (ev : Event) : bool :=
  read_event ev ||
  match ev with
  | Call op _ => is_fs op
  | _ => false
  end.

(** The options a caller can pass: the six constructors of [options.go]
    with their arguments. *)
Inductive OptionCall : Type :=
| CallMaxIdleConns (n : Z)
| CallMaxOpenConns (n : Z)
| CallConnMaxLifetime (d : Z)
| CallAttempts (n : Z)
| CallDelay (d : Z)
| CallDDLPath (path : string).

Definition option_of (o : OptionCall) : Option :=
  match o with
  | CallMaxIdleConns n => MaxIdleConns n
  | CallMaxOpenConns n => MaxOpenConns n
  | CallConnMaxLifetime d => ConnMaxLifetime d
  | CallAttempts n => Attempts n
  | CallDelay d => Delay d
  | CallDDLPath p => DDLPath p
  end.

(** The paths given with [DDLPath], in the order of the options. *)
Definition ddl_paths (calls : list OptionCall) : list string :=
  flat_map (fun o => match o with CallDDLPath p => [p] | _ => [] end) calls.

(** The inverse of the FNV prime modulo 2^64. *)
Definition prime64_inv : Z := 14886173955864302971.

(** A callback of [Query] that stores [g row acc] in the variables it
    captures and returns [err row]. *)
Definition field_func {A : Type} (g : Row -> A -> A)
  (err : Row -> option error) : Row -> A -> M (A * option error) :=
  fun r acc => ret (g r acc, err r).

(** The script is among the records. *)
Definition recorded (l : list SchemaVersion) (name : string) : bool :=
  match findByScript_range name l with
  | Some _ => true
  | None => false
  end.

(** A row a run can have written for a script of [files]. *)
Definition written_by_run (env : Env) (sc : SqliteClient)
  (files : list string) (r : SchemaVersion) : Prop :=
  In (Script r) files /\
  Checksum r = checksum_of env sc (Script r) /\
  (Status r = SchemaVersionStatusSuccess \/
   Status r = SchemaVersionStatusError).

(** ** Example environments *)

Module Examples.

Definition quiet : Op -> World -> option error := fun _ _ => None.

Definition scripts (p : string) : string :=
  if String.eqb p "db/001_init.sql"
  then "create table if not exists t (x integer)"
  else "insert into t values (1)".

Definition scripts' (p : string) : string :=
  if String.eqb p "db/001_init.sql"
  then "create table if not exists t (x text)"
  else "insert into t values (1)".

Definition listing (_ : string) : list string :=
  ["001_init.sql"; "002_seed.sql"].

Definition mk (f : Op -> World -> option error) (files : string -> string)
  : Env :=
  mkEnv f listing files (fun w => Z.of_nat (List.length (trace w)))
    (fun _ => 1500) (fun _ => "1.5us")
    (fun _ _ _ => []) (fun _ _ _ => (0, 0)) (fun _ _ _ => 0).

(** Everything is served. *)
Definition healthy : Env := mk quiet scripts.

(** The same storage, the first script edited. *)
Definition edited : Env := mk quiet scripts'.

Definition locked : error := StorageErr "database is locked".
Definition gone : error := StorageErr "unable to open database file".
Definition no_dir : error := StorageErr "no such file or directory".
Definition syntax : error := StorageErr "syntax error".

(** The directory does not exist. *)
Definition missing_dir : Env :=
  mk (fun op _ => match op with OpReadDir _ => Some no_dir | _ => None end)
     scripts.

(** The second script does not execute. *)
Definition bad_seed : Env :=
  mk (fun op _ =>
        match op with
        | OpExec s =>
            if String.eqb s "insert into t values (1)" then Some syntax
            else None
        | _ => None
        end) scripts.

(** The database stays locked for writing once the first record is in the
    ledger: statements are neither executed nor prepared. *)
Definition locked_later : Env :=
  mk (fun op w =>
        match op with
        | OpExec _ | OpPrepare _ | OpStmtExec _ _ =>
            if Nat.leb 1 (List.length (ledger w)) then Some locked else None
        | _ => None
        end) scripts.

(** The database refuses to prepare statements during the first forty
    events, and serves everything afterwards. *)
Definition busy_at_first : Env :=
  mk (fun op w =>
        match op with
        | OpPrepare _ =>
            if Nat.ltb (List.length (trace w)) 40 then Some locked else None
        | _ => None
        end) scripts.

(** No handle can be obtained. *)
Definition offline : Env :=
  mk (fun op _ =>
        match op with
        | OpPing | OpOpen _ => Some gone
        | _ => None
        end) scripts.

(** The scan of a count fails. *)
Definition bad_scan : Env :=
  mk (fun op _ =>
        match op with
        | OpQueryRowScan _ _ => Some locked
        | _ => None
        end) scripts.

(** Transactions cannot be committed; counts are answered with 7. *)
Definition no_commit : Env :=
  mkEnv (fun op _ => match op with OpCommit => Some locked | _ => None end)
    listing scripts (fun w => Z.of_nat (List.length (trace w)))
    (fun _ => 1500) (fun _ => "1.5us")
    (fun _ _ _ => []) (fun _ _ _ => (0, 0)) (fun _ _ _ => 7).

Definition client : SqliteClient :=
  NewSqliteClient "./test.db" [DDLPath "db"].

(** A fresh database file. *)
Definition fresh : World := mkWorld false [] 1 [].

(** A database whose ledger records a failed script. *)
Definition failed_before : World :=
  mkWorld true
    [mkSchemaVersion 1 "001_init.sql" "5" "1ms" SchemaVersionStatusError 0]
    2 [].

(** The database after one run in the healthy environment. *)
Definition once : World := snd (initialFlayway healthy client fresh).

(** The world in which [executeFlayway] has listed the directory, the
    records it then fetches, and the world in which its loop starts. *)
Definition listed (env : Env) (w : World) : World :=
  record (Call (OpReadDir (ddlPath (config client))) None)
    (snd (initialSchemaVersion env client w)).

Definition fetched (env : Env) (w : World) : slice SchemaVersion :=
  fst (fst (SchemaVersionArray env client (listed env w))).

Definition at_loop (env : Env) (w : World) : World :=
  snd (SchemaVersionArray env client (listed env w)).

(** The healthy storage, one byte of the first script edited. *)
Definition touched : Env :=
  mk quiet
    (fun p => if String.eqb p "db/001_init.sql"
              then "create table if not exists t (y integer)"
              else "insert into t values (1)").

(** The second script cannot be read. *)
Definition torn : Env :=
  mk (fun op _ =>
        match op with
        | OpReadFile p =>
            if String.eqb p "db/002_seed.sql" then Some no_dir else None
        | _ => None
        end) scripts.

(** A record for a third script. *)
Definition more : SchemaVersion :=
  mkSchemaVersion 0 "003_more.sql" "42" "2ms" SchemaVersionStatusSuccess 0.


End Examples.

(** * Properties *)

(** ** The checksum *)

Lemma lxor_below (a b n : Z) :
  0 < n -> 0 <= a < 2 ^ n -> 0 <= b < 2 ^ n -> 0 <= Z.lxor a b < 2 ^ n.
Proof.
  intros Hn Ha Hb. split.
  - apply Z.lxor_nonneg. lia.
  - destruct (Z.eq_dec (Z.lxor a b) 0) as [E | E].
    + rewrite E. apply Z.pow_pos_nonneg; lia.
    + assert (Hab : 0 <= Z.lxor a b) by (apply Z.lxor_nonneg; lia).
      apply Z.log2_lt_pow2; [lia |].
      eapply Z.le_lt_trans; [apply Z.log2_lxor; lia |].
      apply Z.max_lub_lt.
      * destruct (Z.eq_dec a 0) as [-> | Na]; [simpl; lia |].
        apply Z.log2_lt_pow2; lia.
      * destruct (Z.eq_dec b 0) as [-> | Nb]; [simpl; lia |].
        apply Z.log2_lt_pow2; lia.
Qed.

Lemma byte_of_range (c : ascii) : 0 <= byte_of c < 2 ^ 64.
Proof.
  unfold byte_of. pose proof (nat_ascii_bounded c) as H.
  split; [lia |].
  apply Z.lt_trans with 256; [lia | reflexivity].
Qed.

Lemma fnv64_Write_range (s : string) :
  forall h, 0 <= h < two64 -> 0 <= fnv64_Write h s < two64.
Proof.
  induction s as [| c rest IH]; intros h Hh; simpl.
  - exact Hh.
  - apply IH. unfold two64. apply lxor_below.
    + lia.
    + apply Z.mod_pos_bound. reflexivity.
    + apply byte_of_range.
Qed.

Lemma hash64_range (s : string) : 0 <= fst (hash64 s) < two64.
Proof.
  unfold hash64. simpl. apply fnv64_Write_range.
  unfold offset64, two64. split; [lia | reflexivity].
Qed.

(** C6.  The checksum is a function of the content alone: equal contents
    give the same value, the value is an unsigned 64-bit number, and no
    content makes [hash64] return an error.  Two scripts of equal content
    get the same checksum column whatever their names, their directories
    and the environments they are read in. *)
Theorem hash64_deterministic (c1 c2 : string) (env1 env2 : Env)
  (sc1 sc2 : SqliteClient) (n1 n2 : string) :
  c1 = c2 ->
  file env1 (script_path sc1 n1) = c1 ->
  file env2 (script_path sc2 n2) = c2 ->
  hash64 c1 = hash64 c2 /\
  snd (hash64 c1) = None /\
  0 <= fst (hash64 c1) < two64 /\
  checksum_of env1 sc1 n1 = checksum_of env2 sc2 n2.
Proof.
  intros -> E1 E2. split; [reflexivity |]. split; [reflexivity |].
  split; [apply hash64_range |].
  unfold checksum_of. rewrite E1, E2. reflexivity.
Qed.

Lemma hash64_deterministic_witness :
  hash64 "insert into t values (1)" = hash64 "insert into t values (1)" /\
  snd (hash64 "insert into t values (1)") = None /\
  0 <= fst (hash64 "insert into t values (1)") < two64 /\
  checksum_of Examples.healthy Examples.client "002_seed.sql" =
  checksum_of Examples.edited (NewSqliteClient "./other.db" [DDLPath "sql"])
    "003_more.sql".
Proof.
  apply (hash64_deterministic
           "insert into t values (1)" "insert into t values (1)"
           Examples.healthy Examples.edited
           Examples.client (NewSqliteClient "./other.db" [DDLPath "sql"])
           "002_seed.sql" "003_more.sql");
    reflexivity.
Defined.

(** ** Calls and traces *)

Arguments call : simpl never.

Section Properties.

Variable env : Env.
Variable sc : SqliteClient.

Lemma call_served (op : Op) (w : World) :
  outcome env op w = None ->
  call env op w = (None, record (Call op None) (effect env op w)).
Proof. intros H. unfold call. rewrite H. reflexivity. Qed.

Lemma call_failed (op : Op) (w : World) (e : error) :
  outcome env op w = Some e ->
  call env op w = (Some e, record (Call op (Some e)) w).
Proof. intros H. unfold call. rewrite H. reflexivity. Qed.

Lemma outcome_served (op : Op) (w : World) :
  fault env op w = None -> inherent op w = None ->
  outcome env op w = None.
Proof. intros H1 H2. unfold outcome. rewrite H1. exact H2. Qed.

(** ** The handle *)

(** C9.  When [GetDB] returns an error, [Insert], [Update] and [Delete]
    return [(0, nil)] and [Transaction] returns nil: the error of the
    connection does not reach the caller, and nothing else is done. *)
Theorem write_methods_drop_GetDB_error
  (w : World) (e : error) (sql : string) (args : list value)
  (callback : M (option error)) :
  fst (GetDB env sc w) = Some e ->
  Insert env sc sql args w = ((0, None), snd (GetDB env sc w)) /\
  Update env sc sql args w = ((0, None), snd (GetDB env sc w)) /\
  Delete env sc sql args w = ((0, None), snd (GetDB env sc w)) /\
  Transaction env sc callback w = (None, snd (GetDB env sc w)).
Proof.
  intros H. unfold Insert, Update, Delete, Transaction, bind, ret.
  destruct (GetDB env sc w) as [r w1]. simpl in H. subst r. simpl.
  repeat split.
Qed.

(** C10.  When the handle is there and the transaction has begun, a failing
    scan of the count makes [Count] return [(0, nil)]: the error that is
    logged and returned is the nil one of [Begin], not the one of the
    scan. *)
Theorem Count_drops_scan_error
  (w w1 w2 : World) (e : error) (sql : string) (args : list value) :
  GetDB env sc w = (None, w1) ->
  call env OpBegin w1 = (None, w2) ->
  outcome env (OpQueryRowScan sql args) w2 = Some e ->
  fst (Count env sc sql args w) = (0, None) /\
  In (Call (OpQueryRowScan sql args) (Some e))
     (trace (snd (Count env sc sql args w))) /\
  In (Log Log_Println "Query count error." None)
     (trace (snd (Count env sc sql args w))).
Proof.
  intros Hdb Hbegin Hscan. unfold Count, bind, ret.
  rewrite Hdb, Hbegin. rewrite (call_failed _ _ _ Hscan).
  unfold log, call. simpl.
  destruct (outcome env OpCommit _); simpl;
    repeat split; rewrite ?in_app_iff; simpl; tauto.
Qed.

(** ** What a method leaves behind *)

Lemma steps_refl (P : Event -> bool) (w : World) : steps P w w.
Proof. exists []. rewrite app_nil_r. split; reflexivity. Qed.

Lemma steps_trans (P : Event -> bool) (w1 w2 w3 : World) :
  steps P w1 w2 -> steps P w2 w3 -> steps P w1 w3.
Proof.
  intros [e1 [T1 F1]] [e2 [T2 F2]]. exists (e1 ++ e2)%list. split.
  - rewrite T2, T1, app_assoc. reflexivity.
  - rewrite forallb_app, F1, F2. reflexivity.
Qed.

Lemma steps_weaken (P Q : Event -> bool) (w w' : World) :
  (forall ev, P ev = true -> Q ev = true) -> steps P w w' -> steps Q w w'.
Proof.
  intros PQ [evs [T F]]. exists evs. split; [exact T |].
  rewrite forallb_forall in *. auto.
Qed.

Lemma steps_same_trace (P : Event -> bool) (w w' : World) :
  trace w' = trace w -> steps P w w'.
Proof. intros T. exists []. rewrite app_nil_r. split; [exact T | reflexivity]. Qed.

Lemma steps_record (P : Event -> bool) (ev : Event) (w : World) :
  P ev = true -> steps P w (record ev w).
Proof. intros H. exists [ev]. simpl. rewrite H. split; reflexivity. Qed.

Lemma steps_In (P : Event -> bool) (w w' : World) (ev : Event) :
  steps P w w' -> In ev (trace w') -> In ev (trace w) \/ P ev = true.
Proof.
  intros [evs [T F]] Hin. rewrite T, in_app_iff in Hin.
  destruct Hin as [H | H]; [left; exact H | right].
  rewrite forallb_forall in F. auto.
Qed.

Lemma same_store_refl (w : World) : same_store w w.
Proof. repeat split. Qed.

Lemma same_store_trans (w1 w2 w3 : World) :
  same_store w1 w2 -> same_store w2 w3 -> same_store w1 w3.
Proof.
  unfold same_store. intros [A [B C]] [A' [B' C']].
  repeat split; congruence.
Qed.

Lemma same_store_record (ev : Event) (w : World) : same_store w (record ev w).
Proof. repeat split. Qed.

Lemma trace_effect (op : Op) (w : World) : trace (effect env op w) = trace w.
Proof.
  destruct op; simpl; try reflexivity.
  - destruct (String.eqb stmt DDLSchemaVersion); reflexivity.
  - destruct args as [| a [| b [| c [| d [| x args]]]]]; try reflexivity.
    destruct (String.eqb sql InsertSchemaVersionSQL); reflexivity.
Qed.

Lemma grows_refl (w : World) : grows w w.
Proof. split; [auto |]. exists []. rewrite app_nil_r. reflexivity. Qed.

Lemma grows_trans (w1 w2 w3 : World) :
  grows w1 w2 -> grows w2 w3 -> grows w1 w3.
Proof.
  intros [H1 [a1 L1]] [H2 [a2 L2]]. split; [auto |].
  exists (a1 ++ a2)%list. rewrite L2, L1, app_assoc. reflexivity.
Qed.

Lemma same_store_grows (w w' : World) : same_store w w' -> grows w w'.
Proof.
  intros [A [B C]]. split; [congruence |].
  exists []. rewrite app_nil_r. exact B.
Qed.

Lemma handle_is_read (ev : Event) : handle_event ev = true -> read_event ev = true.
Proof. intros H. unfold read_event. rewrite H. apply orb_true_r. Qed.

Lemma handle_is_benign (ev : Event) : handle_event ev = true -> benign ev = true.
Proof.
  destruct ev as [[] []|]; simpl; intros H; try reflexivity; discriminate H.
Qed.

Lemma read_is_quiet (ev : Event) : read_event ev = true -> quiet_event ev = true.
Proof.
  destruct ev as [[] []|]; simpl; intros H; try reflexivity; discriminate H.
Qed.

(** ** [GetDB], [ExecDDL] *)

Lemma GetDB_spec (w : World) :
  same_store w (snd (GetDB env sc w)) /\
  steps handle_event w (snd (GetDB env sc w)).
Proof.
  unfold GetDB, Ping, OpenDataSource, bind, ret, log, call.
  destruct (outcome env OpPing w) as [e |]; simpl.
  - destruct (outcome env (OpOpen (dataSourceName sc)) _) as [e' |]; simpl.
    + split; [repeat split |].
      eexists [_; _; _; _]. simpl. rewrite <- !app_assoc. simpl.
      split; reflexivity.
    + split; [repeat split |].
      eexists [_; _; _]. simpl. rewrite <- !app_assoc. simpl.
      split; reflexivity.
  - split; [repeat split |]. apply steps_record. reflexivity.
Qed.

Lemma GetDB_alive (w : World) :
  fault env OpPing w = None ->
  GetDB env sc w = (None, record (Call OpPing None) w).
Proof.
  intros H. unfold GetDB, Ping, bind, ret.
  rewrite call_served by (apply outcome_served; auto). reflexivity.
Qed.

Lemma effect_read (op : Op) (w : World) :
  is_read op = true -> effect env op w = w.
Proof. destruct op; simpl; intros H; try reflexivity; discriminate H. Qed.

Lemma benign_served (op : Op) : benign (Call op None) = true.
Proof. destruct op; reflexivity. Qed.

Lemma reads_refl (w : World) (r : option error) : reads w r w.
Proof.
  split; [apply same_store_refl |].
  split; [apply steps_refl | intros _; apply steps_refl].
Qed.

Lemma reads_seq (w w1 w2 : World) (r : option error) :
  reads w None w1 -> reads w1 r w2 -> reads w r w2.
Proof.
  intros [S1 [R1 B1]] [S2 [R2 B2]].
  split; [eapply same_store_trans; eauto |].
  split; [eapply steps_trans; eauto |].
  intros Hr. eapply steps_trans; eauto.
Qed.

Lemma reads_fail (w w' : World) (r : option error) (e : error) :
  reads w r w' -> reads w (Some e) w'.
Proof.
  intros [S [R _]]. split; [exact S |]. split; [exact R |].
  intros H. discriminate H.
Qed.

Lemma reads_GetDB (w : World) : reads w None (snd (GetDB env sc w)).
Proof.
  destruct (GetDB_spec w) as [S H]. split; [exact S |].
  split; [| intros _].
  - exact (steps_weaken _ _ _ _ handle_is_read H).
  - exact (steps_weaken _ _ _ _ handle_is_benign H).
Qed.

Lemma reads_call (op : Op) (w : World) :
  is_read op = true ->
  reads w (fst (call env op w)) (snd (call env op w)).
Proof.
  intros Hop. unfold call.
  destruct (outcome env op w) as [e |]; simpl.
  - split; [apply same_store_record |]. split.
    + apply steps_record. unfold read_event. simpl. rewrite Hop. reflexivity.
    + intros H. discriminate H.
  - rewrite (effect_read _ _ Hop).
    split; [apply same_store_record |]. split.
    + apply steps_record. unfold read_event. simpl. rewrite Hop. reflexivity.
    + intros _. apply steps_record. apply benign_served.
Qed.

(** ** [ExecDDL] *)

Lemma effect_exec (ddl : string) (w : World) :
  ledger (effect env (OpExec ddl) w) = ledger w /\
  next_id (effect env (OpExec ddl) w) = next_id w /\
  (has_ledger w = true -> has_ledger (effect env (OpExec ddl) w) = true) /\
  (ddl = DDLSchemaVersion -> has_ledger (effect env (OpExec ddl) w) = true).
Proof.
  simpl. destruct (String.eqb_spec ddl DDLSchemaVersion) as [E | N]; simpl.
  - repeat split; auto.
  - repeat split; auto; intros E; contradiction.
Qed.

Lemma ExecDDL_spec (ddl : string) (w : World) :
  ledger (snd (ExecDDL env sc ddl w)) = ledger w /\
  next_id (snd (ExecDDL env sc ddl w)) = next_id w /\
  (has_ledger w = true -> has_ledger (snd (ExecDDL env sc ddl w)) = true) /\
  (fst (ExecDDL env sc ddl w) = None -> ddl = DDLSchemaVersion ->
   has_ledger (snd (ExecDDL env sc ddl w)) = true) /\
  (fst (ExecDDL env sc ddl w) = None ->
   steps benign w (snd (ExecDDL env sc ddl w))).
Proof.
  unfold ExecDDL, bind, ret.
  destruct (reads_GetDB w) as [[Sh [Sl Sn]] [_ B]]. specialize (B eq_refl).
  destruct (GetDB env sc w) as [[e |] w1]; simpl in *.
  - repeat split; congruence.
  - unfold log, call. simpl.
    destruct (outcome env (OpExec ddl) _) as [e |] eqn:Ho; simpl.
    + repeat split; congruence.
    + assert (Hsteps : forall h,
                steps benign w
                  (record (Call (OpExec ddl) None)
                     (mkWorld h (ledger w1) (next_id w1)
                        (((trace w1 ++ [Log Logrus_Infof "exec ddl : " None]) ++
                          [Log Logrus_Infof ddl None]) ++
                         [Log Logrus_Infof "--------------------" None])%list))).
      { intros h. eapply steps_trans; [exact B |].
        eexists [_; _; _; _]. simpl. rewrite <- !app_assoc. simpl.
        split; reflexivity. }
      destruct (String.eqb_spec ddl DDLSchemaVersion) as [E | N]; simpl.
      * repeat split; try congruence. intros _. apply Hsteps.
      * repeat split; try congruence. intros _. apply Hsteps.
Qed.

(** ** [Query] and the methods built on it *)

Lemma Query_range_reads {A : Type} (q : string)
  (f : Row -> A -> M (A * option error)) (rows : list Row) :
  (forall r acc w, reads w (snd (fst (f r acc w))) (snd (f r acc w))) ->
  forall acc w,
    reads w (snd (fst (Query_range env q f rows acc w)))
      (snd (Query_range env q f rows acc w)).
Proof.
  intros Hf. induction rows as [| r rest IH]; intros acc w;
    cbn [Query_range]; unfold bind, ret;
    pose proof (reads_call (OpNext q) w eq_refl) as Hc;
    destruct (call env (OpNext q) w) as [[e |] w1]; cbn [fst snd] in *;
    try exact Hc.
  specialize (Hf r acc w1).
  destruct (f r acc w1) as [[acc' [e |]] w2]; cbn [fst snd] in *.
  - eapply reads_seq; eauto.
  - eapply reads_seq; [exact Hc |].
    eapply reads_seq; [exact Hf |]. apply IH.
Qed.

Lemma Query_reads {A : Type} (q : string)
  (f : Row -> A -> M (A * option error)) (args : list value) :
  (forall r acc w, reads w (snd (fst (f r acc w))) (snd (f r acc w))) ->
  forall acc w,
    reads w (snd (fst (Query env sc q f args acc w)))
      (snd (Query env sc q f args acc w)).
Proof.
  intros Hf acc w. unfold Query, bind, ret.
  pose proof (reads_GetDB w) as Hg.
  destruct (GetDB env sc w) as [[e |] w1]; cbn [fst snd] in *.
  - eapply reads_fail; eauto.
  - pose proof (reads_call (OpQuery q args) w1 eq_refl) as Hc.
    destruct (call env (OpQuery q args) w1) as [[e |] w2]; cbn [fst snd] in *.
    + eapply reads_seq; eauto.
    + eapply reads_seq; [exact Hg |].
      eapply reads_seq; [exact Hc |].
      apply Query_range_reads. exact Hf.
Qed.

Lemma scan_count_reads (r : Row) (count : Z) (w : World) :
  reads w (snd (fst (scan_count env r count w)))
    (snd (scan_count env r count w)).
Proof.
  unfold scan_count, bind, ret.
  pose proof (reads_call (OpScan r) w eq_refl) as Hc.
  destruct (call env (OpScan r) w) as [[e |] w1]; cbn [fst snd] in *;
    [exact Hc |].
  destruct r as [| [s | n] [| v r]]; simpl;
    try exact Hc; eapply reads_fail; exact Hc.
Qed.

Lemma scan_schema_version_reads (r : Row) (acc : slice SchemaVersion)
  (w : World) :
  reads w (snd (fst (scan_schema_version env r acc w)))
    (snd (scan_schema_version env r acc w)).
Proof.
  unfold scan_schema_version, bind, ret.
  pose proof (reads_call (OpScan r) w eq_refl) as Hc.
  destruct (call env (OpScan r) w) as [[e |] w1]; cbn [fst snd] in *;
    [exact Hc |].
  destruct (sv_of_row r); simpl; [exact Hc |].
  eapply reads_fail; exact Hc.
Qed.

Lemma HasTable_reads (table : string) (w : World) :
  reads w (snd (fst (HasTable env sc table w)))
    (snd (HasTable env sc table w)).
Proof.
  unfold HasTable, bind, ret.
  pose proof (Query_reads SqliteMasterSQL (scan_count env) [VText table]
                scan_count_reads 0 w) as Hq.
  destruct (Query env sc SqliteMasterSQL (scan_count env) [VText table] 0 w)
    as [[n [e |]] w1]; cbn [fst snd] in *; exact Hq.
Qed.

Lemma SchemaVersionArray_reads (w : World) :
  reads w (snd (fst (SchemaVersionArray env sc w)))
    (snd (SchemaVersionArray env sc w)).
Proof.
  unfold SchemaVersionArray, bind, ret.
  pose proof (Query_reads SelectSchemaVersionSQL (scan_schema_version env) []
                scan_schema_version_reads None w) as Hq.
  destruct (Query env sc SelectSchemaVersionSQL (scan_schema_version env) []
              None w) as [[l [e |]] w1]; cbn [fst snd] in *; exact Hq.
Qed.

Lemma result_rows_master (w : World) :
  result_rows env SqliteMasterSQL [VText "schema_version"] w =
  [[VInt (if has_ledger w then 1 else 0)]].
Proof. reflexivity. Qed.

Lemma result_rows_select (w : World) :
  result_rows env SelectSchemaVersionSQL [] w = map row_of_sv (ledger w).
Proof. reflexivity. Qed.

Lemma sv_of_row_of_sv (sv : SchemaVersion) : sv_of_row (row_of_sv sv) = Some sv.
Proof. destruct sv. reflexivity. Qed.

Lemma served_read (op : Op) (w : World) :
  serves env is_read -> is_read op = true -> inherent op w = None ->
  outcome env op w = None.
Proof. intros Hs Hop Hi. apply outcome_served; auto. Qed.

(** The count of [sqlite_master] that [HasTable] scans. *)
Lemma count_range (n : Z) (w : World) :
  (snd (fst (Query_range env SqliteMasterSQL (scan_count env) [[VInt n]] 0 w))
   = None ->
   fst (fst (Query_range env SqliteMasterSQL (scan_count env) [[VInt n]] 0 w))
   = n) /\
  (serves env is_read ->
   snd (fst (Query_range env SqliteMasterSQL (scan_count env) [[VInt n]] 0 w))
   = None).
Proof.
  cbn [Query_range]. unfold bind, ret, scan_count, bind, ret.
  destruct (call env (OpNext SqliteMasterSQL) w) as [[e |] w1] eqn:C1;
    cbn [fst snd].
  - split; [intros H; discriminate H |].
    intros Hs. unfold call in C1.
    rewrite served_read in C1 by auto. discriminate C1.
  - destruct (call env (OpScan [VInt n]) w1) as [[e |] w2] eqn:C2;
      cbn [fst snd].
    + split; [intros H; discriminate H |].
      intros Hs. unfold call in C2.
      rewrite served_read in C2 by auto. discriminate C2.
    + destruct (call env (OpNext SqliteMasterSQL) w2) as [[e |] w3] eqn:C3;
        cbn [fst snd].
      * split; [intros H; discriminate H |].
        intros Hs. unfold call in C3.
        rewrite served_read in C3 by auto. discriminate C3.
      * split; reflexivity.
Qed.

Lemma HasTable_exists (w : World) :
  snd (fst (HasTable env sc "schema_version" w)) = None ->
  fst (fst (HasTable env sc "schema_version" w)) = has_ledger w.
Proof.
  unfold HasTable, Query, bind, ret.
  destruct (GetDB_spec w) as [[Sh _] _].
  destruct (GetDB env sc w) as [[e |] w1]; cbn [fst snd] in *;
    [intros H; discriminate H |].
  destruct (call env (OpQuery SqliteMasterSQL [VText "schema_version"]) w1)
    as [[e |] w2]; cbn [fst snd]; [intros H; discriminate H |].
  rewrite result_rows_master.
  destruct (count_range (if has_ledger w1 then 1 else 0) w2) as [Hn _].
  destruct (Query_range env SqliteMasterSQL (scan_count env) _ 0 w2)
    as [[n [e |]] w3]; cbn [fst snd] in *; [intros H; discriminate H |].
  intros _. rewrite (Hn eq_refl), Sh.
  destruct (has_ledger w); reflexivity.
Qed.

Lemma HasTable_served (w : World) :
  serves env is_read ->
  snd (fst (HasTable env sc "schema_version" w)) = None.
Proof.
  intros Hs. unfold HasTable, Query, bind, ret.
  rewrite GetDB_alive by (apply Hs; reflexivity). cbn [fst snd].
  rewrite call_served by (apply served_read; auto). cbn [fst snd].
  rewrite result_rows_master.
  match goal with
  | |- context [Query_range env SqliteMasterSQL (scan_count env) [[VInt ?n]] 0 ?x] =>
      destruct (count_range n x) as [_ Hq]; specialize (Hq Hs);
      destruct (Query_range env SqliteMasterSQL (scan_count env) [[VInt n]] 0 x)
        as [[m [e |]] w3]; cbn [fst snd] in *
  end.
  - discriminate Hq.
  - reflexivity.
Qed.

Lemma scan_schema_version_served (sv : SchemaVersion)
  (acc : slice SchemaVersion) (w w' : World) :
  call env (OpScan (row_of_sv sv)) w = (None, w') ->
  scan_schema_version env (row_of_sv sv) acc w = ((append acc sv, None), w').
Proof.
  intros C. unfold scan_schema_version, bind, ret. rewrite C.
  rewrite sv_of_row_of_sv. reflexivity.
Qed.

Lemma scan_schema_version_failed (sv : SchemaVersion)
  (acc : slice SchemaVersion) (w w' : World) (e : error) :
  call env (OpScan (row_of_sv sv)) w = (Some e, w') ->
  scan_schema_version env (row_of_sv sv) acc w =
  ((append acc zeroSchemaVersion, Some e), w').
Proof.
  intros C. unfold scan_schema_version, bind, ret. rewrite C. reflexivity.
Qed.

(** The rows [SchemaVersionArray] collects. *)
Lemma select_range (l : list SchemaVersion) :
  forall acc w,
    (snd (fst (Query_range env SelectSchemaVersionSQL (scan_schema_version env)
                 (map row_of_sv l) acc w)) = None ->
     elems (fst (fst (Query_range env SelectSchemaVersionSQL
                        (scan_schema_version env) (map row_of_sv l) acc w)))
     = (elems acc ++ l)%list) /\
    (serves env is_read ->
     snd (fst (Query_range env SelectSchemaVersionSQL (scan_schema_version env)
                 (map row_of_sv l) acc w)) = None).
Proof.
  induction l as [| sv rest IH]; intros acc w; cbn [map Query_range];
    unfold bind, ret;
    destruct (call env (OpNext SelectSchemaVersionSQL) w) as [[e |] w1] eqn:C1;
    cbn [fst snd].
  - split; [intros H; discriminate H |].
    intros Hs. unfold call in C1.
    rewrite served_read in C1 by auto. discriminate C1.
  - split; [intros _; rewrite app_nil_r; reflexivity | reflexivity].
  - split; [intros H; discriminate H |].
    intros Hs. unfold call in C1.
    rewrite served_read in C1 by auto. discriminate C1.
  - destruct (call env (OpScan (row_of_sv sv)) w1) as [[e |] w2] eqn:C2.
    + rewrite (scan_schema_version_failed _ _ _ _ _ C2). cbn [fst snd].
      split; [intros H; discriminate H |].
      intros Hs. unfold call in C2.
      rewrite served_read in C2 by auto. discriminate C2.
    + rewrite (scan_schema_version_served _ _ _ _ C2). cbn [fst snd].
      destruct (IH (append acc sv) w2) as [IH1 IH2].
      split; [| exact IH2].
      intros H. rewrite (IH1 H). unfold append. cbn [elems].
      rewrite <- app_assoc. reflexivity.
Qed.

Lemma SchemaVersionArray_result (w : World) :
  snd (fst (SchemaVersionArray env sc w)) = None ->
  fst (fst (SchemaVersionArray env sc w)) = Some (ledger w).
Proof.
  unfold SchemaVersionArray, Query, bind, ret.
  destruct (GetDB_spec w) as [[_ [Sl _]] _].
  destruct (GetDB env sc w) as [[e |] w1]; cbn [fst snd] in *;
    [intros H; discriminate H |].
  destruct (call env (OpQuery SelectSchemaVersionSQL []) w1)
    as [[e |] w2]; cbn [fst snd]; [intros H; discriminate H |].
  rewrite result_rows_select.
  destruct (select_range (ledger w1) None w2) as [Hl _].
  destruct (Query_range env SelectSchemaVersionSQL (scan_schema_version env)
              _ None w2) as [[res [e |]] w3]; cbn [fst snd] in *;
    [intros H; discriminate H |].
  intros _. specialize (Hl eq_refl). cbn [elems app] in Hl.
  rewrite <- Sl, <- Hl. destruct res; reflexivity.
Qed.

Lemma SchemaVersionArray_served (w : World) :
  serves env is_read -> has_ledger w = true ->
  snd (fst (SchemaVersionArray env sc w)) = None.
Proof.
  intros Hs Hl. unfold SchemaVersionArray, Query, bind, ret.
  rewrite GetDB_alive by (apply Hs; reflexivity). cbn [fst snd].
  rewrite call_served.
  2:{ apply served_read; auto. cbn. rewrite Hl. reflexivity. }
  cbn [fst snd]. rewrite result_rows_select.
  match goal with
  | |- context [Query_range env SelectSchemaVersionSQL
                  (scan_schema_version env) (map row_of_sv ?l) None ?x] =>
      destruct (select_range l None x) as [_ Hq]; specialize (Hq Hs);
      destruct (Query_range env SelectSchemaVersionSQL
                  (scan_schema_version env) (map row_of_sv l) None x)
        as [[res [e |]] w3]; cbn [fst snd] in *
  end.
  - discriminate Hq.
  - reflexivity.
Qed.

(** C8.  When [SchemaVersionArray] returns no error, its result is the
    rows of [schema_version] in insertion order; for a table without rows it
    is the empty slice and not the nil one.  The table is left as it was. *)
Theorem SchemaVersionArray_lists_ledger (w : World) :
  snd (fst (SchemaVersionArray env sc w)) = None ->
  fst (fst (SchemaVersionArray env sc w)) = Some (ledger w) /\
  (ledger w = [] -> fst (fst (SchemaVersionArray env sc w)) = Some []) /\
  same_store w (snd (SchemaVersionArray env sc w)).
Proof.
  intros H. pose proof (SchemaVersionArray_result w H) as R.
  split; [exact R |]. split.
  - intros E. rewrite R, E. reflexivity.
  - apply SchemaVersionArray_reads.
Qed.

(** ** [initialSchemaVersion] *)

Lemma initialSchemaVersion_spec (w : World) :
  ledger (snd (initialSchemaVersion env sc w)) = ledger w /\
  next_id (snd (initialSchemaVersion env sc w)) = next_id w /\
  (has_ledger w = true ->
   same_store w (snd (initialSchemaVersion env sc w)) /\
   steps read_event w (snd (initialSchemaVersion env sc w))) /\
  (fst (initialSchemaVersion env sc w) = None ->
   has_ledger (snd (initialSchemaVersion env sc w)) = true) /\
  (fst (initialSchemaVersion env sc w) = None ->
   steps benign w (snd (initialSchemaVersion env sc w))).
Proof.
  unfold initialSchemaVersion, bind, ret.
  pose proof (HasTable_reads "schema_version" w) as [[Sh [Sl Sn]] [R B]].
  pose proof (HasTable_exists w) as E.
  destruct (HasTable env sc "schema_version" w) as [[ex [e |]] w1];
    cbn [fst snd] in *.
  - repeat split; try congruence; try exact R.
  - specialize (E eq_refl). specialize (B eq_refl). subst ex.
    destruct (has_ledger w) eqn:Hw; cbn [fst snd].
    + repeat split; try congruence; auto.
    + destruct (ExecDDL_spec DDLSchemaVersion w1) as [El [En [_ [Ed Eb]]]].
      repeat split; try congruence.
      * intros H. apply Ed; auto.
      * intros H. eapply steps_trans; [exact B | apply Eb; exact H].
Qed.

(** ** Appending a record *)

Lemma benign_insert_prepare (r : option error) :
  benign (Call (OpPrepare InsertSchemaVersionSQL) r) = true.
Proof. destruct r; reflexivity. Qed.

Lemma benign_insert_exec (args : list value) (r : option error) :
  benign (Call (OpStmtExec InsertSchemaVersionSQL args) r) = true.
Proof. destruct r; reflexivity. Qed.

Lemma effect_prepare (sql : string) (w : World) :
  effect env (OpPrepare sql) w = w.
Proof. reflexivity. Qed.

Lemma effect_insert (sv : SchemaVersion) (w : World) :
  effect env (OpStmtExec InsertSchemaVersionSQL (insert_args sv)) w =
  mkWorld (has_ledger w)
    (ledger w ++
     [mkSchemaVersion (next_id w) (Script sv) (Checksum sv)
        (ExecutionTime sv) (Status sv) (now env w)])%list
    (next_id w + 1) (trace w).
Proof. reflexivity. Qed.

Lemma insertSchemaVersion_spec (sv : SchemaVersion) (w : World) :
  steps benign w (snd (insertSchemaVersion env sc sv w)) /\
  (same_store w (snd (insertSchemaVersion env sc sv w)) \/
   appended sv w (snd (insertSchemaVersion env sc sv w))).
Proof.
  unfold insertSchemaVersion, Insert, bind, ret. fold (insert_args sv).
  pose proof (reads_GetDB w) as [S [_ B]]. specialize (B eq_refl).
  destruct (GetDB env sc w) as [[e |] w1]; cbn [fst snd] in *.
  - split; [exact B | left; exact S].
  - destruct S as [A [C D]].
    destruct (outcome env (OpPrepare InsertSchemaVersionSQL) w1) as [e |]
      eqn:Hp.
    + rewrite (call_failed _ _ _ Hp). unfold log. cbn [fst snd]. split.
      * eapply steps_trans; [exact B |].
        eexists [_; _; _]. simpl. rewrite <- !app_assoc. simpl.
        split; reflexivity.
      * left. repeat split; simpl; assumption.
    + rewrite (call_served _ _ Hp), effect_prepare. cbn [fst snd].
      unfold stm_Exec.
      destruct (outcome env
                  (OpStmtExec InsertSchemaVersionSQL (insert_args sv))
                  (record (Call (OpPrepare InsertSchemaVersionSQL) None) w1))
        as [e |] eqn:Hx.
      * rewrite (call_failed _ _ _ Hx). unfold log. cbn [fst snd]. split.
        -- eapply steps_trans; [exact B |].
           eexists [_; _; _; _]. simpl. rewrite <- !app_assoc. simpl.
           split; reflexivity.
        -- left. repeat split; simpl; assumption.
      * rewrite (call_served _ _ Hx), effect_insert. cbn [fst snd]. split.
        -- eapply steps_trans; [exact B |].
           eexists [_; _]. simpl. rewrite <- !app_assoc. simpl.
           split; reflexivity.
        -- right. unfold appended. simpl.
           rewrite A, C, D. repeat split. eexists. reflexivity.
Qed.

Lemma insertSchemaVersion_served (sv : SchemaVersion) (w : World) :
  serves env is_read -> serves env is_append -> has_ledger w = true ->
  appended sv w (snd (insertSchemaVersion env sc sv w)) /\
  steps benign w (snd (insertSchemaVersion env sc sv w)).
Proof.
  intros Hr Ha Hl. split; [| apply insertSchemaVersion_spec].
  unfold insertSchemaVersion, Insert, bind, ret. fold (insert_args sv).
  rewrite GetDB_alive by (apply Hr; reflexivity). cbn [fst snd].
  rewrite call_served.
  2:{ apply outcome_served; [apply Ha; reflexivity |].
      cbn. rewrite Hl. reflexivity. }
  cbn [fst snd]. unfold stm_Exec. rewrite call_served.
  2:{ apply outcome_served; [apply Ha; reflexivity |].
      cbn. rewrite Hl. reflexivity. }
  cbn [fst snd]. rewrite effect_prepare, effect_insert.
  unfold appended. simpl. repeat split. eexists. reflexivity.
Qed.

(** ** [readFile] *)

Lemma appended_grows (sv : SchemaVersion) (w w' : World) :
  appended sv w w' -> grows w w'.
Proof.
  intros [A [_ [c L]]]. split; [congruence |]. eexists. exact L.
Qed.

Lemma readFile_unreadable (name : string) (svs : slice SchemaVersion)
  (w : World) (e : error) :
  outcome env (OpReadFile (script_path sc name)) w = Some e ->
  readFile env sc name svs w =
  (Some e, record (Call (OpReadFile (script_path sc name)) (Some e)) w).
Proof.
  intros H. unfold readFile, bind, ret. rewrite (call_failed _ _ _ H).
  reflexivity.
Qed.

Lemma readFile_changed (name : string) (svs : slice SchemaVersion)
  (w : World) (sv : SchemaVersion) :
  outcome env (OpReadFile (script_path sc name)) w = None ->
  findByScript name svs = Some sv ->
  String.eqb (Checksum sv) (checksum_of env sc name) = false ->
  readFile env sc name svs w =
  (Some (FileChanged sv),
   record (Call (OpReadFile (script_path sc name)) None) w).
Proof.
  intros H F C. unfold readFile, bind, ret. rewrite (call_served _ _ H).
  unfold hash64. cbn [fst snd]. rewrite F.
  unfold checksum_of, hash64 in C. cbn [fst] in C. rewrite C. reflexivity.
Qed.

Lemma readFile_skipped (name : string) (svs : slice SchemaVersion)
  (w : World) (sv : SchemaVersion) :
  outcome env (OpReadFile (script_path sc name)) w = None ->
  findByScript name svs = Some sv ->
  String.eqb (Checksum sv) (checksum_of env sc name) = true ->
  readFile env sc name svs w =
  (None, record (Call (OpReadFile (script_path sc name)) None) w).
Proof.
  intros H F C. unfold readFile, bind, ret. rewrite (call_served _ _ H).
  unfold hash64. cbn [fst snd]. rewrite F.
  unfold checksum_of, hash64 in C. cbn [fst] in C. rewrite C. reflexivity.
Qed.

Lemma readFile_new (name : string) (svs : slice SchemaVersion) (w : World) :
  outcome env (OpReadFile (script_path sc name)) w = None ->
  findByScript name svs = None ->
  readFile env sc name svs w =
  (fst (ExecDDL env sc (file env (script_path sc name))
          (record (Call (OpReadFile (script_path sc name)) None) w)),
   snd (insertSchemaVersion env sc
          (attempt env sc name
             (fst (ExecDDL env sc (file env (script_path sc name))
                     (record (Call (OpReadFile (script_path sc name)) None)
                        w)))
             (snd (ExecDDL env sc (file env (script_path sc name))
                     (record (Call (OpReadFile (script_path sc name)) None)
                        w))))
          (snd (ExecDDL env sc (file env (script_path sc name))
                  (record (Call (OpReadFile (script_path sc name)) None)
                     w))))).
Proof.
  intros H F. unfold readFile, bind, ret. rewrite (call_served _ _ H).
  unfold hash64. cbn [fst snd]. rewrite F.
  change (effect env (OpReadFile (script_path sc name)) w) with w.
  destruct (ExecDDL env sc (file env (script_path sc name))
              (record (Call (OpReadFile (script_path sc name)) None) w))
    as [err w2].
  unfold since_execTime. cbn [fst snd].
  unfold attempt, checksum_of, hash64. cbn [fst snd].
  destruct (insertSchemaVersion env sc _ w2) as [u w3]. reflexivity.
Qed.

Lemma readFile_spec (name : string) (svs : slice SchemaVersion) (w : World) :
  grows w (snd (readFile env sc name svs w)) /\
  (fst (readFile env sc name svs w) = None ->
   steps benign w (snd (readFile env sc name svs w))).
Proof.
  destruct (outcome env (OpReadFile (script_path sc name)) w) as [e |] eqn:H.
  - rewrite (readFile_unreadable _ svs _ _ H). cbn [fst snd].
    split; [apply same_store_grows, same_store_record |].
    intros E. discriminate E.
  - destruct (findByScript name svs) as [sv |] eqn:F.
    + destruct (String.eqb (Checksum sv) (checksum_of env sc name)) eqn:C.
      * rewrite (readFile_skipped _ _ _ _ H F C). cbn [fst snd].
        split; [apply same_store_grows, same_store_record |].
        intros _. apply steps_record. reflexivity.
      * rewrite (readFile_changed _ _ _ _ H F C). cbn [fst snd].
        split; [apply same_store_grows, same_store_record |].
        intros E. discriminate E.
    + rewrite (readFile_new _ _ _ H F). cbn [fst snd].
      set (w1 := record (Call (OpReadFile (script_path sc name)) None) w).
      destruct (ExecDDL_spec (file env (script_path sc name)) w1)
        as [El [En [Eh [_ Eb]]]].
      set (w2 := snd (ExecDDL env sc (file env (script_path sc name)) w1))
        in *.
      set (rec := attempt env sc name _ w2).
      destruct (insertSchemaVersion_spec rec w2) as [Ib Is].
      split.
      * eapply grows_trans with w2.
        -- split; [exact Eh |]. exists []. rewrite app_nil_r. exact El.
        -- destruct Is as [Is | Is];
             [apply same_store_grows | eapply appended_grows]; eauto.
      * intros E. eapply steps_trans; [| exact Ib].
        eapply steps_trans; [| apply Eb; exact E].
        apply steps_record. reflexivity.
Qed.

(** ** The loop over the files *)

Lemma executeFlayway_range_app (pre post : list string)
  (svs : slice SchemaVersion) (w : World) :
  executeFlayway_range env sc (pre ++ post) svs w =
  match executeFlayway_range env sc pre svs w with
  | (Some e, w1) => (Some e, w1)
  | (None, w1) => executeFlayway_range env sc post svs w1
  end.
Proof.
  revert w. induction pre as [| f pre IH]; intros w.
  - reflexivity.
  - cbn [app executeFlayway_range]. unfold bind, ret.
    destruct (readFile env sc f svs w) as [[e |] w1].
    + reflexivity.
    + apply IH.
Qed.

Lemma executeFlayway_range_spec (files : list string)
  (svs : slice SchemaVersion) :
  forall w,
    grows w (snd (executeFlayway_range env sc files svs w)) /\
    (fst (executeFlayway_range env sc files svs w) = None ->
     steps benign w (snd (executeFlayway_range env sc files svs w))).
Proof.
  induction files as [| f rest IH]; intros w;
    cbn [executeFlayway_range]; unfold bind, ret.
  - split; [apply grows_refl | intros _; apply steps_refl].
  - destruct (readFile_spec f svs w) as [G B].
    destruct (readFile env sc f svs w) as [[e |] w1]; cbn [fst snd] in *.
    + split; [exact G | intros E; discriminate E].
    + destruct (IH w1) as [G' B']. split.
      * eapply grows_trans; eauto.
      * intros E. eapply steps_trans; [apply B; reflexivity | apply B'; exact E].
Qed.

(** ** [executeFlayway], [initialFlayway], [Initial] *)

Lemma executeFlayway_unlistable (w : World) (e : error) :
  outcome env (OpReadDir (ddlPath (config sc))) w = Some e ->
  executeFlayway env sc w =
  (None, record (Call (OpReadDir (ddlPath (config sc))) (Some e)) w).
Proof.
  intros H. unfold executeFlayway, bind, ret. rewrite (call_failed _ _ _ H).
  reflexivity.
Qed.

Lemma executeFlayway_listed (w : World) :
  outcome env (OpReadDir (ddlPath (config sc))) w = None ->
  executeFlayway env sc w =
  let w1 := record (Call (OpReadDir (ddlPath (config sc))) None) w in
  match snd (fst (SchemaVersionArray env sc w1)) with
  | Some e => (Some e, snd (SchemaVersionArray env sc w1))
  | None =>
      match hasError (fst (fst (SchemaVersionArray env sc w1))) with
      | Some e => (Some e, snd (SchemaVersionArray env sc w1))
      | None =>
          executeFlayway_range env sc (dir env (ddlPath (config sc)))
            (fst (fst (SchemaVersionArray env sc w1)))
            (snd (SchemaVersionArray env sc w1))
      end
  end.
Proof.
  intros H. unfold executeFlayway, bind, ret. rewrite (call_served _ _ H).
  change (effect env (OpReadDir (ddlPath (config sc))) w) with w.
  cbn zeta.
  destruct (SchemaVersionArray env sc _) as [[svs [e |]] w2]; cbn [fst snd].
  - reflexivity.
  - destruct (hasError svs); reflexivity.
Qed.

Lemma executeFlayway_spec (w : World) :
  grows w (snd (executeFlayway env sc w)) /\
  (fst (executeFlayway env sc w) = None ->
   steps benign w (snd (executeFlayway env sc w))).
Proof.
  destruct (outcome env (OpReadDir (ddlPath (config sc))) w) as [e |] eqn:H.
  - rewrite (executeFlayway_unlistable _ _ H). cbn [fst snd].
    split; [apply same_store_grows, same_store_record |].
    intros _. apply steps_record. reflexivity.
  - rewrite (executeFlayway_listed _ H). cbn zeta.
    set (w1 := record (Call (OpReadDir (ddlPath (config sc))) None) w).
    pose proof (SchemaVersionArray_reads w1) as [S [_ B]].
    destruct (SchemaVersionArray env sc w1) as [[svs [e |]] w2];
      cbn [fst snd] in *.
    + split; [apply same_store_grows; exact S | intros E; discriminate E].
    + destruct (hasError svs) as [e |].
      * split; [apply same_store_grows; exact S | intros E; discriminate E].
      * destruct (executeFlayway_range_spec (dir env (ddlPath (config sc)))
                    svs w2) as [G Bl].
        split.
        -- eapply grows_trans; [apply same_store_grows; exact S | exact G].
        -- intros E. eapply steps_trans; [| apply Bl; exact E].
           eapply steps_trans; [| apply B; reflexivity].
           apply steps_record. reflexivity.
Qed.

Lemma initialFlayway_off (w : World) :
  flyway (config sc) = false -> initialFlayway env sc w = (None, w).
Proof. intros H. unfold initialFlayway. rewrite H. reflexivity. Qed.

Lemma initialFlayway_on (w : World) :
  flyway (config sc) = true ->
  initialFlayway env sc w =
  match fst (initialSchemaVersion env sc w) with
  | Some e => (Some e, snd (initialSchemaVersion env sc w))
  | None => executeFlayway env sc (snd (initialSchemaVersion env sc w))
  end.
Proof.
  intros H. unfold initialFlayway, bind, ret. rewrite H. cbn [negb].
  destruct (initialSchemaVersion env sc w) as [[e |] w1]; cbn [fst snd].
  - reflexivity.
  - destruct (executeFlayway env sc w1) as [[e |] w2]; reflexivity.
Qed.

Lemma initialFlayway_spec (w : World) :
  grows w (snd (initialFlayway env sc w)) /\
  (fst (initialFlayway env sc w) = None ->
   steps benign w (snd (initialFlayway env sc w))).
Proof.
  destruct (flyway (config sc)) eqn:Hf.
  - rewrite (initialFlayway_on _ Hf).
    destruct (initialSchemaVersion_spec w) as [Sl [Sn [_ [Sh Sb]]]].
    assert (G : grows w (snd (initialSchemaVersion env sc w))).
    { split.
      - intros Hw. destruct (initialSchemaVersion_spec w)
          as [_ [_ [K _]]]. destruct (K Hw) as [[A _] _]. congruence.
      - exists []. rewrite app_nil_r. exact Sl. }
    destruct (initialSchemaVersion env sc w) as [[e |] w1]; cbn [fst snd] in *.
    + split; [exact G | intros E; discriminate E].
    + destruct (executeFlayway_spec w1) as [G' B']. split.
      * eapply grows_trans; eauto.
      * intros E. eapply steps_trans; [apply Sb; reflexivity | apply B'; exact E].
  - rewrite (initialFlayway_off _ Hf). cbn [fst snd].
    split; [apply grows_refl | intros _; apply steps_refl].
Qed.


(** ** The claims about one run *)

Lemma hasError_range_found (l : list SchemaVersion) (sv : SchemaVersion) :
  In sv l -> Status sv = SchemaVersionStatusError ->
  exists sv', hasError_range l = Some (AbnormalState sv') /\
              In sv' l /\ Status sv' = SchemaVersionStatusError.
Proof.
  induction l as [| x rest IH]; intros Hin Hst; [destruct Hin |].
  cbn [hasError_range].
  destruct (String.eqb_spec (Status x) SchemaVersionStatusError) as [E | N].
  - exists x. repeat split; [left; reflexivity | exact E].
  - destruct Hin as [-> | Hin]; [contradiction |].
    destruct (IH Hin Hst) as [sv' [H1 [H2 H3]]].
    exists sv'. repeat split; [exact H1 | right; exact H2 | exact H3].
Qed.

Lemma initialSchemaVersion_served (w : World) :
  serves env is_read -> has_ledger w = true ->
  fst (initialSchemaVersion env sc w) = None /\
  same_store w (snd (initialSchemaVersion env sc w)) /\
  steps read_event w (snd (initialSchemaVersion env sc w)).
Proof.
  intros Hs Hl.
  destruct (initialSchemaVersion_spec w) as [_ [_ [K _]]].
  destruct (K Hl) as [S R]. split; [| split; assumption].
  unfold initialSchemaVersion, bind, ret.
  pose proof (HasTable_served w Hs) as E.
  pose proof (HasTable_exists w E) as X.
  destruct (HasTable env sc "schema_version" w) as [[ex err] w1];
    cbn [fst snd] in *.
  subst err. rewrite X, Hl. reflexivity.
Qed.

(** C7.  When the ledger is there or has just been created and the script
    directory cannot be listed, the run returns nil and does nothing beyond
    the failed listing: the rows of the ledger are those it had, the table
    exists, no script is read. *)
Theorem unlistable_directory_is_no_op (w : World) (e : error) :
  flyway (config sc) = true ->
  fst (initialSchemaVersion env sc w) = None ->
  outcome env (OpReadDir (ddlPath (config sc)))
    (snd (initialSchemaVersion env sc w)) = Some e ->
  initialFlayway env sc w =
    (None,
     record (Call (OpReadDir (ddlPath (config sc))) (Some e))
       (snd (initialSchemaVersion env sc w))) /\
  ledger (snd (initialFlayway env sc w)) = ledger w /\
  next_id (snd (initialFlayway env sc w)) = next_id w /\
  has_ledger (snd (initialFlayway env sc w)) = true.
Proof.
  intros Hf He Hd.
  destruct (initialSchemaVersion_spec w) as [Sl [Sn [_ [Sh _]]]].
  rewrite (initialFlayway_on _ Hf), He.
  rewrite (executeFlayway_unlistable _ _ Hd). cbn [fst snd].
  repeat split; simpl; auto.
Qed.

(** C2, as the code has it.  When the ledger holds a record with status
    ERROR, the directory can be listed and the database serves the reads,
    the run fails with the error that names the first such record; the
    table is left as it was and no event of the run reads a script,
    executes a statement or inserts a row. *)
Theorem unresolved_failure_aborts (w : World) (sv : SchemaVersion) :
  flyway (config sc) = true ->
  has_ledger w = true ->
  In sv (ledger w) -> Status sv = SchemaVersionStatusError ->
  serves env is_read ->
  (forall w', fault env (OpReadDir (ddlPath (config sc))) w' = None) ->
  exists sv',
    In sv' (ledger w) /\ Status sv' = SchemaVersionStatusError /\
    fst (initialFlayway env sc w) = Some (AbnormalState sv') /\
    same_store w (snd (initialFlayway env sc w)) /\
    forall ev, In ev (trace (snd (initialFlayway env sc w))) ->
               In ev (trace w) \/ touches_script ev = false.
Proof.
  intros Hf Hl Hin Hst Hs Hd.
  destruct (hasError_range_found _ _ Hin Hst) as [sv' [He [Hin' Hst']]].
  exists sv'. split; [exact Hin' |]. split; [exact Hst' |].
  destruct (initialSchemaVersion_served w Hs Hl) as [E0 [S0 R0]].
  rewrite (initialFlayway_on _ Hf), E0.
  set (w0 := snd (initialSchemaVersion env sc w)) in *.
  rewrite executeFlayway_listed by (apply outcome_served; auto).
  cbn zeta.
  set (w1 := record (Call (OpReadDir (ddlPath (config sc))) None) w0).
  assert (S1 : same_store w w1).
  { eapply same_store_trans; [exact S0 | apply same_store_record]. }
  assert (Hl1 : has_ledger w1 = true) by (destruct S1 as [A _]; congruence).
  pose proof (SchemaVersionArray_served w1 Hs Hl1) as E1.
  pose proof (SchemaVersionArray_result w1 E1) as X1.
  pose proof (SchemaVersionArray_reads w1) as [S2 [R2 _]].
  rewrite E1, X1. unfold hasError. cbn [elems].
  destruct S1 as [A1 [B1 C1]]. rewrite B1, He. cbn [fst snd].
  split; [reflexivity |]. split.
  - eapply same_store_trans; [| exact S2]. exact (conj A1 (conj B1 C1)).
  - intros ev Hev.
    assert (Q : steps quiet_event w (snd (SchemaVersionArray env sc w1))).
    { apply steps_trans with w0;
        [exact (steps_weaken _ _ _ _ read_is_quiet R0) |].
      apply steps_trans with w1;
        [unfold w1; apply steps_record; reflexivity |].
      exact (steps_weaken _ _ _ _ read_is_quiet R2). }
    destruct (steps_In _ _ _ _ Q Hev) as [H | H]; [left; exact H | right].
    unfold quiet_event in H. destruct (touches_script ev);
      [discriminate H | reflexivity].
Qed.

(** C3.  A script that is reached by the run and whose name is found in the
    records fetched at the start, with a checksum other than the one of its
    content, makes the run return the error that names the found record; the
    world is then the one in which the script was reached plus the reading
    of the file: no row is appended for it, and no later script is read. *)
Theorem changed_script_stops_run
  (w wl w1 : World) (pre post : list string) (name : string)
  (svs : slice SchemaVersion) (sv : SchemaVersion) :
  flyway (config sc) = true ->
  fst (initialSchemaVersion env sc w) = None ->
  outcome env (OpReadDir (ddlPath (config sc)))
    (snd (initialSchemaVersion env sc w)) = None ->
  dir env (ddlPath (config sc)) = (pre ++ name :: post)%list ->
  SchemaVersionArray env sc
    (record (Call (OpReadDir (ddlPath (config sc))) None)
       (snd (initialSchemaVersion env sc w))) = ((svs, None), wl) ->
  hasError svs = None ->
  executeFlayway_range env sc pre svs wl = (None, w1) ->
  outcome env (OpReadFile (script_path sc name)) w1 = None ->
  findByScript name svs = Some sv ->
  Checksum sv <> checksum_of env sc name ->
  initialFlayway env sc w =
    (Some (FileChanged sv),
     record (Call (OpReadFile (script_path sc name)) None) w1) /\
  ledger (snd (initialFlayway env sc w)) = ledger w1.
Proof.
  intros Hf He Hd Hdir Hsva Herr Hpre Hrd Hfind Hne.
  assert (R : initialFlayway env sc w =
              (Some (FileChanged sv),
               record (Call (OpReadFile (script_path sc name)) None) w1)).
  { rewrite (initialFlayway_on _ Hf), He.
    rewrite (executeFlayway_listed _ Hd). cbn zeta.
    rewrite Hsva. cbn [fst snd]. rewrite Herr, Hdir.
    rewrite executeFlayway_range_app, Hpre.
    cbn [executeFlayway_range]. unfold bind, ret.
    rewrite (readFile_changed _ _ _ _ Hrd Hfind).
    - reflexivity.
    - apply String.eqb_neq. exact Hne. }
  split; [exact R |]. rewrite R. reflexivity.
Qed.

Lemma insertSchemaVersion_served_at (sv : SchemaVersion) (w : World) :
  fst (GetDB env sc w) = None ->
  outcome env (OpPrepare InsertSchemaVersionSQL) (snd (GetDB env sc w))
  = None ->
  outcome env (OpStmtExec InsertSchemaVersionSQL (insert_args sv))
    (record (Call (OpPrepare InsertSchemaVersionSQL) None)
       (snd (GetDB env sc w))) = None ->
  appended sv w (snd (insertSchemaVersion env sc sv w)).
Proof.
  intros Hg Hp Hx.
  unfold insertSchemaVersion, Insert, bind, ret. fold (insert_args sv).
  destruct (GetDB_spec w) as [[A [B C]] _].
  destruct (GetDB env sc w) as [r w1]. cbn [fst snd] in *. subst r.
  rewrite (call_served _ _ Hp), effect_prepare. cbn [fst snd].
  unfold stm_Exec. rewrite (call_served _ _ Hx), effect_insert.
  cbn [fst snd]. unfold appended. simpl.
  rewrite A, B, C. repeat split. eexists. reflexivity.
Qed.

(** C1, as the code has it.  A script that is reached by the run, is not
    among the records fetched at the start and whose execution returns an
    error, makes the run return that error after one call of
    [insertSchemaVersion] with a record of status ERROR for it.  The ledger
    then has that one record more when the handle was obtained and the
    insert prepared and executed, and is as before otherwise.  The run ends
    there: the remaining files play no part. *)
Theorem failed_script_is_recorded_once
  (w wl w1 w2 : World) (pre post : list string) (name : string)
  (svs : slice SchemaVersion) (e : error) :
  flyway (config sc) = true ->
  fst (initialSchemaVersion env sc w) = None ->
  outcome env (OpReadDir (ddlPath (config sc)))
    (snd (initialSchemaVersion env sc w)) = None ->
  dir env (ddlPath (config sc)) = (pre ++ name :: post)%list ->
  SchemaVersionArray env sc
    (record (Call (OpReadDir (ddlPath (config sc))) None)
       (snd (initialSchemaVersion env sc w))) = ((svs, None), wl) ->
  hasError svs = None ->
  executeFlayway_range env sc pre svs wl = (None, w1) ->
  outcome env (OpReadFile (script_path sc name)) w1 = None ->
  findByScript name svs = None ->
  ExecDDL env sc (file env (script_path sc name))
    (record (Call (OpReadFile (script_path sc name)) None) w1)
  = (Some e, w2) ->
  let failed := attempt env sc name (Some e) w2 in
  let w3 := snd (insertSchemaVersion env sc failed w2) in
  initialFlayway env sc w = (Some e, w3) /\
  Script failed = name /\
  Status failed = SchemaVersionStatusError /\
  Checksum failed = checksum_of env sc name /\
  ledger w2 = ledger w1 /\
  (same_store w2 w3 \/ appended failed w2 w3) /\
  (fst (GetDB env sc w2) = None ->
   outcome env (OpPrepare InsertSchemaVersionSQL) (snd (GetDB env sc w2))
   = None ->
   outcome env (OpStmtExec InsertSchemaVersionSQL (insert_args failed))
     (record (Call (OpPrepare InsertSchemaVersionSQL) None)
        (snd (GetDB env sc w2))) = None ->
   appended failed w2 w3).
Proof.
  intros Hf He Hd Hdir Hsva Herr Hpre Hrd Hfind Hex failed w3.
  split; [| split; [reflexivity |]; split; [reflexivity |];
            split; [reflexivity |]; split; [| split]].
  - rewrite (initialFlayway_on _ Hf), He.
    rewrite (executeFlayway_listed _ Hd). cbn zeta.
    rewrite Hsva. cbn [fst snd]. rewrite Herr, Hdir.
    rewrite executeFlayway_range_app, Hpre.
    cbn [executeFlayway_range]. unfold bind, ret.
    rewrite (readFile_new _ _ _ Hrd Hfind), Hex. reflexivity.
  - pose proof (ExecDDL_spec (file env (script_path sc name))
                  (record (Call (OpReadFile (script_path sc name)) None) w1))
      as [El _].
    rewrite Hex in El. exact El.
  - apply insertSchemaVersion_spec.
  - apply insertSchemaVersion_served_at.
Qed.


(** ** Two runs in sequence *)

Lemma findByScript_range_app (name : string) (l1 l2 : list SchemaVersion) :
  findByScript_range name (l1 ++ l2) =
  match findByScript_range name l1 with
  | Some sv => Some sv
  | None => findByScript_range name l2
  end.
Proof.
  induction l1 as [| x rest IH]; cbn [app findByScript_range].
  - reflexivity.
  - destruct (String.eqb (Script x) name); [reflexivity | exact IH].
Qed.

Lemma findByScript_range_In (name : string) (l : list SchemaVersion) :
  In name (map Script l) ->
  exists sv, findByScript_range name l = Some sv /\ In sv l /\
             Script sv = name.
Proof.
  induction l as [| x rest IH]; intros Hin; [destruct Hin |].
  cbn [findByScript_range].
  destruct (String.eqb_spec (Script x) name) as [E | N].
  - exists x. repeat split; [left; reflexivity | exact E].
  - destruct Hin as [Hin | Hin]; [contradiction |].
    destruct (IH Hin) as [sv [F [I S]]].
    exists sv. repeat split; [exact F | right; exact I | exact S].
Qed.

Lemma hasError_range_app (l1 l2 : list SchemaVersion) :
  hasError_range l1 = None ->
  Forall (fun r => Status r = SchemaVersionStatusSuccess) l2 ->
  hasError_range (l1 ++ l2) = None.
Proof.
  intros H1 H2. induction l1 as [| x rest IH]; cbn [app].
  - induction H2 as [| r l2 Hr _ IH2]; [reflexivity |].
    cbn [hasError_range]. rewrite Hr. exact IH2.
  - cbn [hasError_range] in *.
    destruct (String.eqb (Status x) SchemaVersionStatusError);
      [discriminate H1 | auto].
Qed.

(** A run that returns nil, in an environment that serves the reads, the
    directory and the appends: every file is either skipped or recorded. *)
Lemma executeFlayway_range_records (files : list string)
  (l0 : list SchemaVersion) :
  serves env is_read -> serves env is_fs -> serves env is_append ->
  forall w,
    has_ledger w = true ->
    fst (executeFlayway_range env sc files (Some l0) w) = None ->
    has_ledger (snd (executeFlayway_range env sc files (Some l0) w)) = true /\
    exists added,
      ledger (snd (executeFlayway_range env sc files (Some l0) w))
      = (ledger w ++ added)%list /\
      Forall (applied env sc) added /\
      forall f, In f files ->
        skips env sc l0 f = true \/
        (findByScript_range f l0 = None /\ In f (map Script added)).
Proof.
  intros Hr Hfs Ha.
  induction files as [| f rest IH]; intros w Hl;
    cbn [executeFlayway_range]; unfold bind, ret.
  - intros _. cbn [fst snd]. split; [exact Hl |].
    exists []. rewrite app_nil_r. repeat split; [constructor |].
    intros f [].
  - assert (Hrd : outcome env (OpReadFile (script_path sc f)) w = None)
      by (apply outcome_served; [apply Hfs |]; reflexivity).
    destruct (findByScript_range f l0) as [sv |] eqn:F.
    + destruct (String.eqb (Checksum sv) (checksum_of env sc f)) eqn:C.
      * rewrite (readFile_skipped f (Some l0) w sv Hrd F C).
        intros H.
        destruct (IH (record (Call (OpReadFile (script_path sc f)) None) w)
                    Hl H) as [Hl' [added [L [G K]]]].
        split; [exact Hl' |]. exists added. split; [exact L |].
        split; [exact G |].
        intros g [<- | Hg]; [| apply K; exact Hg].
        left. unfold skips. rewrite F. exact C.
      * rewrite (readFile_changed f (Some l0) w sv Hrd F C).
        intros H. discriminate H.
    + rewrite (readFile_new f (Some l0) w Hrd F).
      set (w1 := record (Call (OpReadFile (script_path sc f)) None) w).
      destruct (ExecDDL_spec (file env (script_path sc f)) w1)
        as [El [En [Eh _]]].
      destruct (ExecDDL env sc (file env (script_path sc f)) w1)
        as [[e |] w2]; cbn [fst snd] in *.
      * intros H. discriminate H.
      * assert (Hl2 : has_ledger w2 = true) by (apply Eh; exact Hl).
        destruct (insertSchemaVersion_served (attempt env sc f None w2) w2
                    Hr Ha Hl2) as [[Ah [An [c Al]]] _].
        set (w3 := snd (insertSchemaVersion env sc (attempt env sc f None w2) w2))
          in *.
        intros H.
        assert (Hl3 : has_ledger w3 = true) by congruence.
        destruct (IH w3 Hl3 H) as [Hl' [added [L [G K]]]].
        split; [exact Hl' |].
        eexists (_ :: added). split; [| split].
        -- rewrite L, Al, El. rewrite <- app_assoc. reflexivity.
        -- constructor; [split; reflexivity | exact G].
        -- intros g [<- | Hg].
           ++ right. split; [exact F | left; reflexivity].
           ++ destruct (K g Hg) as [S | [N I]]; [left; exact S | right].
              split; [exact N | right; exact I].
Qed.

Lemma skips_after (l0 added : list SchemaVersion) (f : string) :
  Forall (applied env sc) added ->
  skips env sc l0 f = true \/
  (findByScript_range f l0 = None /\ In f (map Script added)) ->
  skips env sc (l0 ++ added) f = true.
Proof.
  intros G [S | [N I]]; unfold skips in *; rewrite findByScript_range_app.
  - destruct (findByScript_range f l0); [exact S | discriminate S].
  - rewrite N. destruct (findByScript_range_In _ _ I) as [sv [F [Hin Hs]]].
    rewrite F. rewrite Forall_forall in G.
    destruct (G sv Hin) as [Hc _]. rewrite Hc, Hs. apply String.eqb_refl.
Qed.

Lemma read_is_look (ev : Event) : read_event ev = true -> looks ev = true.
Proof. intros H. unfold looks. rewrite H. reflexivity. Qed.

Lemma executeFlayway_range_skips (files : list string)
  (l : list SchemaVersion) :
  serves env is_fs ->
  (forall f, In f files -> skips env sc l f = true) ->
  forall w,
    fst (executeFlayway_range env sc files (Some l) w) = None /\
    same_store w (snd (executeFlayway_range env sc files (Some l) w)) /\
    steps looks w (snd (executeFlayway_range env sc files (Some l) w)).
Proof.
  intros Hfs. induction files as [| f rest IH]; intros K w;
    cbn [executeFlayway_range]; unfold bind, ret.
  - split; [reflexivity |]. split; [apply same_store_refl | apply steps_refl].
  - assert (Hrd : outcome env (OpReadFile (script_path sc f)) w = None)
      by (apply outcome_served; [apply Hfs |]; reflexivity).
    pose proof (K f (or_introl eq_refl)) as S. unfold skips in S.
    destruct (findByScript_range f l) as [sv |] eqn:F; [| discriminate S].
    rewrite (readFile_skipped f (Some l) w sv Hrd F S).
    destruct (IH (fun g Hg => K g (or_intror Hg))
                (record (Call (OpReadFile (script_path sc f)) None) w))
      as [E [St Sp]].
    split; [exact E |]. split.
    + eapply same_store_trans; [apply same_store_record | exact St].
    + apply steps_trans
        with (record (Call (OpReadFile (script_path sc f)) None) w);
        [apply steps_record; reflexivity | exact Sp].
Qed.

Lemma executeFlayway_healthy (w : World) :
  serves env is_read -> serves env is_fs -> has_ledger w = true ->
  exists w2,
    same_store w w2 /\ steps looks w w2 /\
    executeFlayway env sc w =
    match hasError_range (ledger w) with
    | Some e => (Some e, w2)
    | None =>
        executeFlayway_range env sc (dir env (ddlPath (config sc)))
          (Some (ledger w)) w2
    end.
Proof.
  intros Hr Hfs Hl.
  rewrite executeFlayway_listed
    by (apply outcome_served; [apply Hfs |]; reflexivity).
  cbn zeta.
  set (w1 := record (Call (OpReadDir (ddlPath (config sc))) None) w).
  assert (Hl1 : has_ledger w1 = true) by exact Hl.
  pose proof (SchemaVersionArray_served w1 Hr Hl1) as E1.
  pose proof (SchemaVersionArray_result w1 E1) as X1.
  pose proof (SchemaVersionArray_reads w1) as [S2 [R2 _]].
  exists (snd (SchemaVersionArray env sc w1)). split; [| split].
  - eapply same_store_trans; [apply same_store_record | exact S2].
  - apply steps_trans with w1; [apply steps_record; reflexivity |].
    exact (steps_weaken _ _ _ _ read_is_look R2).
  - rewrite E1, X1. unfold hasError. cbn [elems].
    change (ledger w1) with (ledger w).
    destruct (hasError_range (ledger w)); reflexivity.
Qed.

Lemma first_run_summary (w : World) :
  flyway (config sc) = true ->
  serves env is_read -> serves env is_fs -> serves env is_append ->
  fst (initialFlayway env sc w) = None ->
  has_ledger (snd (initialFlayway env sc w)) = true /\
  exists l0 added,
    ledger (snd (initialFlayway env sc w)) = (l0 ++ added)%list /\
    hasError_range l0 = None /\
    Forall (applied env sc) added /\
    forall f, In f (dir env (ddlPath (config sc))) ->
      skips env sc l0 f = true \/
      (findByScript_range f l0 = None /\ In f (map Script added)).
Proof.
  intros Hf Hr Hfs Ha. rewrite (initialFlayway_on _ Hf).
  destruct (initialSchemaVersion_spec w) as [_ [_ [_ [Sh _]]]].
  destruct (initialSchemaVersion env sc w) as [[e |] w0]; cbn [fst snd] in *;
    [intros H; discriminate H |].
  specialize (Sh eq_refl).
  destruct (executeFlayway_healthy w0 Hr Hfs Sh) as [w2 [[A [B C]] [_ E]]].
  rewrite E.
  destruct (hasError_range (ledger w0)) as [e |] eqn:He;
    [intros H; discriminate H |].
  intros H.
  assert (Hl2 : has_ledger w2 = true) by congruence.
  destruct (executeFlayway_range_records
              (dir env (ddlPath (config sc))) (ledger w0) Hr Hfs Ha w2 Hl2 H)
    as [Hl' [added [L [G K]]]].
  split; [exact Hl' |].
  exists (ledger w0), added. rewrite L, B. repeat split; assumption.
Qed.

Lemma rerun_skips_all (w : World) (l0 added : list SchemaVersion) :
  flyway (config sc) = true ->
  serves env is_read -> serves env is_fs ->
  has_ledger w = true ->
  ledger w = (l0 ++ added)%list ->
  hasError_range l0 = None ->
  Forall (applied env sc) added ->
  (forall f, In f (dir env (ddlPath (config sc))) ->
     skips env sc l0 f = true \/
     (findByScript_range f l0 = None /\ In f (map Script added))) ->
  fst (initialFlayway env sc w) = None /\
  same_store w (snd (initialFlayway env sc w)) /\
  steps looks w (snd (initialFlayway env sc w)).
Proof.
  intros Hf Hr Hfs Hl L He G K.
  destruct (initialSchemaVersion_served w Hr Hl) as [E0 [S0 R0]].
  rewrite (initialFlayway_on _ Hf), E0.
  set (w0 := snd (initialSchemaVersion env sc w)) in *.
  assert (Hl0 : has_ledger w0 = true) by (destruct S0 as [A _]; congruence).
  destruct (executeFlayway_healthy w0 Hr Hfs Hl0) as [w2 [S2 [R2 E]]].
  rewrite E.
  assert (L0 : ledger w0 = (l0 ++ added)%list)
    by (destruct S0 as [_ [B _]]; congruence).
  rewrite L0.
  rewrite hasError_range_app; [| exact He |].
  2:{ eapply Forall_impl; [| exact G]. intros r [_ Hs]. exact Hs. }
  destruct (executeFlayway_range_skips (dir env (ddlPath (config sc)))
              (l0 ++ added) Hfs
              (fun f Hin => skips_after l0 added f G (K f Hin)) w2)
    as [E2 [S3 R3]].
  split; [exact E2 |]. split.
  - eapply same_store_trans; [exact S0 |].
    eapply same_store_trans; [exact S2 | exact S3].
  - apply steps_trans with w0;
      [exact (steps_weaken _ _ _ _ read_is_look R0) |].
    apply steps_trans with w2; assumption.
Qed.

(** C4, as the code has it.  In an environment that serves the reads of
    the database, the reads of the directory and the appends to the ledger,
    a run that returned nil is followed by a run over the same directory
    that returns nil too, leaves [schema_version] as it was, and whose
    events only read: no statement is executed and no row inserted. *)
Theorem second_run_appends_nothing (w : World) :
  flyway (config sc) = true ->
  serves env is_read -> serves env is_fs -> serves env is_append ->
  fst (initialFlayway env sc w) = None ->
  fst (initialFlayway env sc (snd (initialFlayway env sc w))) = None /\
  ledger (snd (initialFlayway env sc (snd (initialFlayway env sc w)))) =
    ledger (snd (initialFlayway env sc w)) /\
  same_store (snd (initialFlayway env sc w))
    (snd (initialFlayway env sc (snd (initialFlayway env sc w)))) /\
  forall ev,
    In ev (trace (snd (initialFlayway env sc (snd (initialFlayway env sc w)))))
    -> In ev (trace (snd (initialFlayway env sc w))) \/ looks ev = true.
Proof.
  intros Hf Hr Hfs Ha H.
  destruct (first_run_summary w Hf Hr Hfs Ha H)
    as [Hl [l0 [added [L [He [G K]]]]]].
  destruct (rerun_skips_all _ l0 added Hf Hr Hfs Hl L He G K)
    as [E [S R]].
  split; [exact E |]. split; [apply S |]. split; [exact S |].
  intros ev Hev. exact (steps_In _ _ _ _ R Hev).
Qed.

End Properties.

(** * The theorems at work *)

(** ** On the example environments *)

Lemma serves_healthy (cls : Op -> bool) : serves Examples.healthy cls.
Proof. intros op w _. reflexivity. Defined.

Lemma unresolved_failure_aborts_witness :
  exists sv,
    fst (initialFlayway Examples.healthy Examples.client
           Examples.failed_before) = Some (AbnormalState sv) /\
    Script sv = "001_init.sql".
Proof.
  destruct (unresolved_failure_aborts Examples.healthy Examples.client
              Examples.failed_before
              (mkSchemaVersion 1 "001_init.sql" "5" "1ms"
                 SchemaVersionStatusError 0))
    as [sv [Hin [_ [H _]]]].
  - reflexivity.
  - reflexivity.
  - left. reflexivity.
  - reflexivity.
  - apply serves_healthy.
  - reflexivity.
  - exists sv. split; [exact H |].
    destruct Hin as [<- | []]. reflexivity.
Defined.

Lemma unlistable_directory_is_no_op_witness :
  fst (initialFlayway Examples.missing_dir Examples.client Examples.fresh)
    = None /\
  ledger (snd (initialFlayway Examples.missing_dir Examples.client
                 Examples.fresh)) = [] /\
  has_ledger (snd (initialFlayway Examples.missing_dir Examples.client
                     Examples.fresh)) = true.
Proof.
  destruct (unlistable_directory_is_no_op Examples.missing_dir
              Examples.client Examples.fresh Examples.no_dir)
    as [H [L [_ T]]].
  - reflexivity.
  - reflexivity.
  - reflexivity.
  - rewrite H. split; [reflexivity |]. split; [exact L | exact T].
Defined.

Lemma SchemaVersionArray_lists_ledger_witness :
  fst (fst (SchemaVersionArray Examples.healthy Examples.client Examples.once))
    = Some (ledger Examples.once) /\
  map Script (ledger Examples.once) = ["001_init.sql"; "002_seed.sql"].
Proof.
  split; [| reflexivity].
  apply (SchemaVersionArray_lists_ledger Examples.healthy Examples.client
           Examples.once).
  reflexivity.
Defined.


Lemma second_run_appends_nothing_witness :
  fst (initialFlayway Examples.healthy Examples.client Examples.once) = None /\
  ledger (snd (initialFlayway Examples.healthy Examples.client Examples.once))
    = ledger Examples.once.
Proof.
  destruct (second_run_appends_nothing Examples.healthy Examples.client
              Examples.fresh) as [H [L _]].
  - reflexivity.
  - apply serves_healthy.
  - apply serves_healthy.
  - apply serves_healthy.
  - reflexivity.
  - split; [exact H | exact L].
Defined.

Lemma changed_script_stops_run_witness :
  exists sv,
    fst (initialFlayway Examples.edited Examples.client Examples.once)
      = Some (FileChanged sv) /\
    Script sv = "001_init.sql" /\
    ledger (snd (initialFlayway Examples.edited Examples.client Examples.once))
      = ledger Examples.once.
Proof.
  destruct (changed_script_stops_run Examples.edited Examples.client
              Examples.once
              (Examples.at_loop Examples.edited Examples.once)
              (Examples.at_loop Examples.edited Examples.once)
              [] ["002_seed.sql"] "001_init.sql"
              (Examples.fetched Examples.edited Examples.once)
              (hd zeroSchemaVersion (ledger Examples.once)))
    as [H L].
  - vm_compute; reflexivity.
  - vm_compute; reflexivity.
  - vm_compute; reflexivity.
  - vm_compute; reflexivity.
  - vm_compute; reflexivity.
  - vm_compute; reflexivity.
  - vm_compute; reflexivity.
  - vm_compute; reflexivity.
  - vm_compute; reflexivity.
  - vm_compute. intros E. discriminate E.
  - eexists; rewrite L, H; repeat split.
Defined.

Lemma failed_script_is_recorded_once_witness :
  fst (initialFlayway Examples.bad_seed Examples.client Examples.fresh)
    = Some Examples.syntax /\
  map (fun sv => (Script sv, Status sv))
    (ledger (snd (initialFlayway Examples.bad_seed Examples.client
                    Examples.fresh)))
    = [("001_init.sql", SchemaVersionStatusSuccess);
       ("002_seed.sql", SchemaVersionStatusError)].
Proof.
  destruct (failed_script_is_recorded_once Examples.bad_seed Examples.client
              Examples.fresh
              (Examples.at_loop Examples.bad_seed Examples.fresh)
              (snd (executeFlayway_range Examples.bad_seed Examples.client
                      ["001_init.sql"]
                      (Examples.fetched Examples.bad_seed Examples.fresh)
                      (Examples.at_loop Examples.bad_seed Examples.fresh)))
              (snd (ExecDDL Examples.bad_seed Examples.client
                      "insert into t values (1)"
                      (record (Call (OpReadFile "db/002_seed.sql") None)
                         (snd (executeFlayway_range Examples.bad_seed
                                 Examples.client ["001_init.sql"]
                                 (Examples.fetched Examples.bad_seed
                                    Examples.fresh)
                                 (Examples.at_loop Examples.bad_seed
                                    Examples.fresh))))))
              ["001_init.sql"] [] "002_seed.sql"
              (Examples.fetched Examples.bad_seed Examples.fresh)
              Examples.syntax)
    as [H _].
  - vm_compute; reflexivity.
  - vm_compute; reflexivity.
  - vm_compute; reflexivity.
  - vm_compute; reflexivity.
  - vm_compute; reflexivity.
  - vm_compute; reflexivity.
  - vm_compute; reflexivity.
  - vm_compute; reflexivity.
  - vm_compute; reflexivity.
  - vm_compute; reflexivity.
  - rewrite H; split; vm_compute; reflexivity.
Defined.

Lemma write_methods_drop_GetDB_error_witness :
  Insert Examples.offline Examples.client "insert into t values (2)" []
    Examples.fresh =
    ((0, None), snd (GetDB Examples.offline Examples.client Examples.fresh))
  /\
  Update Examples.offline Examples.client "insert into t values (2)" []
    Examples.fresh =
    ((0, None), snd (GetDB Examples.offline Examples.client Examples.fresh))
  /\
  Delete Examples.offline Examples.client "insert into t values (2)" []
    Examples.fresh =
    ((0, None), snd (GetDB Examples.offline Examples.client Examples.fresh))
  /\
  Transaction Examples.offline Examples.client (ret None) Examples.fresh =
    (None, snd (GetDB Examples.offline Examples.client Examples.fresh)).
Proof.
  apply (write_methods_drop_GetDB_error Examples.offline Examples.client
           Examples.fresh Examples.gone).
  reflexivity.
Defined.

Lemma Count_drops_scan_error_witness :
  fst (Count Examples.bad_scan Examples.client "select count(1) from t" []
         Examples.fresh) = (0, None).
Proof.
  eapply (Count_drops_scan_error Examples.bad_scan Examples.client
            Examples.fresh _ _ Examples.locked "select count(1) from t" []).
  - reflexivity.
  - reflexivity.
  - reflexivity.
Defined.

(** ** Where the code departs from the specification *)

Lemma failed_script_left_unrecorded :
  fst (initialFlayway Examples.locked_later Examples.client Examples.fresh)
    = Some Examples.locked /\
  In (Call (OpExec "insert into t values (1)") (Some Examples.locked))
     (trace (snd (initialFlayway Examples.locked_later Examples.client
                    Examples.fresh))) /\
  findByScript_range "002_seed.sql"
    (ledger (snd (initialFlayway Examples.locked_later Examples.client
                    Examples.fresh))) = None /\
  map Status
    (ledger (snd (initialFlayway Examples.locked_later Examples.client
                    Examples.fresh))) = [SchemaVersionStatusSuccess].
Proof.
  split; [reflexivity |]. split; [| split; reflexivity].
  vm_compute. tauto.
Qed.

Lemma unresolved_failure_passes_unlistable :
  hasError_range (ledger Examples.failed_before) <> None /\
  fst (initialFlayway Examples.missing_dir Examples.client
         Examples.failed_before) = None.
Proof. split; [discriminate | reflexivity]. Qed.

Lemma second_run_appends_rows :
  fst (initialFlayway Examples.busy_at_first Examples.client Examples.fresh)
    = None /\
  ledger (snd (initialFlayway Examples.busy_at_first Examples.client
                 Examples.fresh)) = [] /\
  fst (initialFlayway Examples.busy_at_first Examples.client
         (snd (initialFlayway Examples.busy_at_first Examples.client
                 Examples.fresh))) = None /\
  map Script
    (ledger
       (snd (initialFlayway Examples.busy_at_first Examples.client
               (snd (initialFlayway Examples.busy_at_first Examples.client
                       Examples.fresh)))))
    = ["001_init.sql"; "002_seed.sql"].
Proof. repeat split. Qed.


(** * Further properties of the code *)

(** ** Searching the records *)

(** X1.  [findByScript] returns the first record of the slice that carries the
    script's name, and reports absence only when no record carries it; the
    nil slice holds no record. *)
Theorem findByScript_first_match (script : string)
  (svArray : slice SchemaVersion) :
  match findByScript script svArray with
  | Some sv =>
      exists pre post,
        elems svArray = (pre ++ sv :: post)%list /\ Script sv = script /\
        forall x, In x pre -> Script x <> script
  | None => forall x, In x (elems svArray) -> Script x <> script
  end.
Proof.
  unfold findByScript.
  induction (elems svArray) as [| a l IH]; cbn [findByScript_range].
  - intros x [].
  - destruct (String.eqb_spec (Script a) script) as [E | N].
    + exists [], l. split; [reflexivity |]. split; [exact E |].
      intros x [].
    + destruct (findByScript_range script l) as [sv |].
      * destruct IH as [pre [post [L [S F]]]].
        exists (a :: pre), post. split; [rewrite L; reflexivity |].
        split; [exact S |].
        intros x [<- | Hx]; [exact N | exact (F x Hx)].
      * intros x [<- | Hx]; [exact N | exact (IH x Hx)].
Qed.

(** X2.  [hasError] returns nil exactly when no record has status ERROR, and
    otherwise the error that carries the first record with that status. *)
Theorem hasError_names_first_failure (svArray : slice SchemaVersion) :
  match hasError svArray with
  | Some e =>
      exists pre sv post,
        elems svArray = (pre ++ sv :: post)%list /\ e = AbnormalState sv /\
        Status sv = SchemaVersionStatusError /\
        forall x, In x pre -> Status x <> SchemaVersionStatusError
  | None =>
      forall x, In x (elems svArray) -> Status x <> SchemaVersionStatusError
  end.
Proof.
  unfold hasError.
  induction (elems svArray) as [| a l IH]; cbn [hasError_range].
  - intros x [].
  - destruct (String.eqb_spec (Status a) SchemaVersionStatusError) as [E | N].
    + exists [], a, l. split; [reflexivity |]. split; [reflexivity |].
      split; [exact E |]. intros x [].
    + destruct (hasError_range l) as [e |].
      * destruct IH as [pre [sv [post [L [Ee [S F]]]]]].
        exists (a :: pre), sv, post. split; [rewrite L; reflexivity |].
        split; [exact Ee |]. split; [exact S |].
        intros x [<- | Hx]; [exact N | exact (F x Hx)].
      * intros x [<- | Hx]; [exact N | exact (IH x Hx)].
Qed.

(** ** The checksum tells contents apart *)

Lemma fnv64_Write_app (s1 s2 : string) :
  forall h, fnv64_Write h (s1 ++ s2) = fnv64_Write (fnv64_Write h s1) s2.
Proof.
  induction s1 as [| c s1 IH]; intros h; simpl; [reflexivity | apply IH].
Qed.

Lemma mul_prime64_inj (h1 h2 : Z) :
  0 <= h1 < two64 -> 0 <= h2 < two64 ->
  (h1 * prime64) mod two64 = (h2 * prime64) mod two64 -> h1 = h2.
Proof.
  intros R1 R2 E.
  assert (K : forall h, 0 <= h < two64 ->
                ((h * prime64) mod two64 * prime64_inv) mod two64 = h).
  { intros h R. rewrite Z.mul_mod_idemp_l by (unfold two64; lia).
    rewrite <- Z.mul_assoc.
    rewrite <- Z.mul_mod_idemp_r by (unfold two64; lia).
    replace ((prime64 * prime64_inv) mod two64) with 1 by reflexivity.
    rewrite Z.mul_1_r. apply Z.mod_small. exact R. }
  rewrite <- (K h1 R1), <- (K h2 R2), E. reflexivity.
Qed.

Lemma lxor_cancel_l (a b c : Z) : Z.lxor a b = Z.lxor a c -> b = c.
Proof.
  intros H.
  assert (E : Z.lxor a (Z.lxor a b) = Z.lxor a (Z.lxor a c)) by (rewrite H; reflexivity).
  rewrite <- !Z.lxor_assoc, Z.lxor_nilpotent, !Z.lxor_0_l in E. exact E.
Qed.

Lemma lxor_cancel_r (a b c : Z) : Z.lxor a c = Z.lxor b c -> a = b.
Proof.
  intros H. rewrite (Z.lxor_comm a c), (Z.lxor_comm b c) in H.
  exact (lxor_cancel_l _ _ _ H).
Qed.

Lemma byte_of_inj (c1 c2 : ascii) : byte_of c1 = byte_of c2 -> c1 = c2.
Proof.
  unfold byte_of. intros H. apply Nat2Z.inj in H.
  rewrite <- (ascii_nat_embedding c1), <- (ascii_nat_embedding c2), H.
  reflexivity.
Qed.

Lemma mod_two64_range (x : Z) : 0 <= x mod two64 < two64.
Proof. apply Z.mod_pos_bound. reflexivity. Qed.

(** The state of the hash after a suffix determines the state before it. *)
Lemma fnv64_Write_inj (s : string) :
  forall h1 h2,
    0 <= h1 < two64 -> 0 <= h2 < two64 ->
    fnv64_Write h1 s = fnv64_Write h2 s -> h1 = h2.
Proof.
  induction s as [| c s IH]; intros h1 h2 R1 R2 E; simpl in E;
    [exact E |].
  apply IH in E.
  - apply lxor_cancel_r in E. exact (mul_prime64_inj _ _ R1 R2 E).
  - apply (lxor_below _ _ 64); [lia | apply mod_two64_range | apply byte_of_range].
  - apply (lxor_below _ _ 64); [lia | apply mod_two64_range | apply byte_of_range].
Qed.

Lemma FormatUint10_inj (a b : Z) :
  0 <= a -> 0 <= b -> FormatUint10 a = FormatUint10 b -> a = b.
Proof.
  intros Ha Hb H. unfold FormatUint10 in H.
  assert (N : forall n, N.to_uint n <> Decimal.Nil).
  { intros [| p]; [discriminate |]. simpl.
    apply DecimalPos.Unsigned.to_uint_nonnil. }
  apply (f_equal NilZero.uint_of_string) in H.
  rewrite !NilZero.usu in H by apply N.
  injection H as H. apply DecimalN.Unsigned.to_uint_inj in H.
  apply Z2N.inj in H; assumption.
Qed.

(** The states of the hash after two contents that differ in one byte. *)
Lemma hash64_one_byte (pre post : string) (c1 c2 : ascii) :
  c1 <> c2 ->
  fst (hash64 (pre ++ String c1 post)) <>
  fst (hash64 (pre ++ String c2 post)).
Proof.
  intros Hc. unfold hash64. cbn [fst]. rewrite !fnv64_Write_app. simpl.
  intros E. apply fnv64_Write_inj in E.
  - apply lxor_cancel_l in E. apply byte_of_inj in E. contradiction.
  - apply (lxor_below _ _ 64);
      [lia | apply mod_two64_range | apply byte_of_range].
  - apply (lxor_below _ _ 64);
      [lia | apply mod_two64_range | apply byte_of_range].
Qed.

(** X3.  Two contents that differ in one byte have different checksums,
    as numbers and as the decimal strings stored in the ledger. *)
Theorem hash64_tells_one_byte_apart (pre post : string) (c1 c2 : ascii) :
  c1 <> c2 ->
  fst (hash64 (pre ++ String c1 post)) <>
  fst (hash64 (pre ++ String c2 post)) /\
  FormatUint10 (fst (hash64 (pre ++ String c1 post))) <>
  FormatUint10 (fst (hash64 (pre ++ String c2 post))).
Proof.
  intros Hc. pose proof (hash64_one_byte pre post c1 c2 Hc) as D.
  split; [exact D |].
  intros E. apply D.
  apply FormatUint10_inj in E; [exact E | |]; apply hash64_range.
Qed.

Lemma hash64_tells_one_byte_apart_witness :
  FormatUint10 (fst (hash64 "create table t (x integer)")) <>
  FormatUint10 (fst (hash64 "create table t (y integer)")).
Proof.
  apply (hash64_tells_one_byte_apart "create table t (" " integer)" "x" "y").
  intros E. discriminate E.
Defined.

(** ** Durations *)

Lemma string_length_app (a b : string) :
  String.length (a ++ b) = (String.length a + String.length b)%nat.
Proof. induction a as [| c a IH]; simpl; [reflexivity | rewrite IH; reflexivity]. Qed.

Lemma string_app_assoc (a b c : string) : (a ++ b) ++ c = a ++ (b ++ c).
Proof. induction a as [| x a IH]; simpl; [reflexivity | rewrite IH; reflexivity]. Qed.

Lemma substring_prefix (p q : string) :
  substring 0 (String.length p) (p ++ q) = p.
Proof.
  induction p as [| c p IH]; simpl.
  - destruct q; reflexivity.
  - rewrite IH. reflexivity.
Qed.

Lemma substring_skip (p q : string) (m : nat) :
  substring (String.length p) m (p ++ q) = substring 0 m q.
Proof. induction p as [| c p IH]; simpl; [reflexivity | exact IH]. Qed.

Lemma substring_all (q : string) : substring 0 (String.length q) q = q.
Proof. induction q as [| c q IH]; simpl; [reflexivity | rewrite IH; reflexivity]. Qed.

Lemma HasSuffix_app (p s : string) : HasSuffix (p ++ s) s = true.
Proof.
  unfold HasSuffix. rewrite string_length_app.
  replace (String.length p + String.length s - String.length s)%nat
    with (String.length p) by lia.
  rewrite substring_skip, substring_all, String.eqb_refl, andb_true_r.
  apply Nat.leb_le. lia.
Qed.

Lemma drop_last_two (p : string) (a b : ascii) :
  substring 0 (String.length (p ++ String a (String b "")) - 2)
    (p ++ String a (String b "")) = p.
Proof.
  rewrite string_length_app. simpl String.length.
  replace (String.length p + 2 - 2)%nat with (String.length p) by lia.
  apply substring_prefix.
Qed.

(** X4.  [shortDur] drops the zero units at the end of a duration: a whole
    number of hours loses its minutes and seconds, a whole number of
    minutes its seconds; a duration with seconds is left as it is. *)
Theorem shortDur_drops_zero_units (durString : Z -> string) (d : Z)
  (p : string) :
  (durString d = p ++ "h0m0s" -> shortDur durString d = p ++ "h") /\
  (durString d = p ++ "m0s" -> HasSuffix (p ++ "m") "h0m" = false ->
   shortDur durString d = p ++ "m") /\
  (HasSuffix (durString d) "m0s" = false ->
   HasSuffix (durString d) "h0m" = false ->
   shortDur durString d = durString d).
Proof.
  split; [| split].
  - intros E. unfold shortDur. rewrite E.
    replace (p ++ "h0m0s") with ((p ++ "h0") ++ "m0s")
      by (rewrite string_app_assoc; reflexivity).
    rewrite HasSuffix_app.
    replace ((p ++ "h0") ++ "m0s") with ((p ++ "h0m") ++ "0s")
      by (rewrite !string_app_assoc; reflexivity).
    rewrite drop_last_two.
    rewrite HasSuffix_app.
    replace (p ++ "h0m") with ((p ++ "h") ++ "0m")
      by (rewrite string_app_assoc; reflexivity).
    apply drop_last_two.
  - intros E N. unfold shortDur. rewrite E, HasSuffix_app.
    replace (p ++ "m0s") with ((p ++ "m") ++ "0s")
      by (rewrite string_app_assoc; reflexivity).
    rewrite drop_last_two, N. reflexivity.
  - intros N1 N2. unfold shortDur. rewrite N1, N2. reflexivity.
Qed.

Lemma shortDur_drops_zero_units_witness :
  shortDur (fun _ => "2h0m0s") 7200000000000 = "2h" /\
  shortDur (fun _ => "5m0s") 300000000000 = "5m" /\
  shortDur (fun _ => "1m30s") 90000000000 = "1m30s".
Proof.
  split; [| split].
  - apply (shortDur_drops_zero_units (fun _ => "2h0m0s") _ "2"). reflexivity.
  - apply (shortDur_drops_zero_units (fun _ => "5m0s") _ "5"); reflexivity.
  - apply (shortDur_drops_zero_units (fun _ => "1m30s") _ ""); reflexivity.
Defined.

(** ** Options *)

Lemma last_cons_default {A : Type} (l : list A) :
  forall p d, last (p :: l) d = last l p.
Proof.
  induction l as [| x l IH]; intros p d; [reflexivity |].
  change (last (p :: x :: l) d) with (last (x :: l) d).
  rewrite (IH x d), (IH x p). reflexivity.
Qed.

Lemma options_fold (calls : list OptionCall) :
  forall c,
    ddlPath (fold_left (fun c opt => opt c) (map option_of calls) c)
    = last (ddl_paths calls) (ddlPath c) /\
    flyway (fold_left (fun c opt => opt c) (map option_of calls) c)
    = flyway c || existsb (fun p => negb (String.eqb p "")) (ddl_paths calls).
Proof.
  induction calls as [| o calls IH]; intros c.
  - cbn. rewrite orb_false_r. split; reflexivity.
  - cbn [map fold_left]. destruct (IH (option_of o c)) as [P F].
    rewrite P, F.
    destruct o; cbn [option_of ddl_paths flat_map app];
      try (split; reflexivity).
    fold (ddl_paths calls). cbn [existsb]. unfold DDLPath.
    destruct (String.eqb path "") eqn:E; cbn [negb ddlPath flyway].
    + split.
      * rewrite last_cons_default. reflexivity.
      * rewrite orb_false_l. reflexivity.
    + split.
      * rewrite last_cons_default. reflexivity.
      * rewrite orb_true_l, orb_true_r. reflexivity.
Qed.

(** X5.  [NewSqliteClient]: the script directory is the path of the last
    [DDLPath] option (empty without one), and the migrations are switched
    on exactly when some [DDLPath] option had a non-empty path: a later
    [DDLPath] with the empty path changes the directory and leaves them
    on.  The other options touch neither. *)
Theorem NewSqliteClient_ddl_options (dsn : string)
  (calls : list OptionCall) :
  dataSourceName (NewSqliteClient dsn (map option_of calls)) = dsn /\
  ddlPath (config (NewSqliteClient dsn (map option_of calls)))
  = last (ddl_paths calls) "" /\
  flyway (config (NewSqliteClient dsn (map option_of calls)))
  = existsb (fun p => negb (String.eqb p "")) (ddl_paths calls).
Proof.
  unfold NewSqliteClient. cbn [dataSourceName config].
  split; [reflexivity |]. apply options_fold.
Qed.

(** X6.  A client created without a non-empty [DDLPath] never migrates:
    [Initial] opens and pings the data source and does nothing else; it
    reads no directory and leaves [schema_version] alone. *)
Theorem client_without_ddl_path_never_migrates (env : Env) (dsn : string)
  (calls : list OptionCall) (w : World) :
  existsb (fun p => negb (String.eqb p "")) (ddl_paths calls) = false ->
  initialFlayway env (NewSqliteClient dsn (map option_of calls)) w
  = (None, w) /\
  same_store w (snd (Initial env (NewSqliteClient dsn (map option_of calls)) w)) /\
  forall ev,
    In ev (trace (snd (Initial env
                         (NewSqliteClient dsn (map option_of calls)) w))) ->
    In ev (trace w) \/ handle_event ev = true.
Proof.
  intros H.
  set (sc := NewSqliteClient dsn (map option_of calls)).
  assert (Hf : flyway (config sc) = false).
  { unfold sc, NewSqliteClient. cbn [config].
    destruct (options_fold calls
                (mkConfig 50 100 (24 * 3600 * 1000000000) 3
                   (200 * 1000000) "" false)) as [_ F].
    rewrite F, H. reflexivity. }
  assert (I : forall w', initialFlayway env sc w' = (None, w'))
    by (intros w'; apply initialFlayway_off; exact Hf).
  split; [apply I |].
  assert (S : same_store w (snd (Initial env sc w)) /\
              steps handle_event w (snd (Initial env sc w))).
  { unfold Initial, OpenDataSource, Ping, bind, ret, log.
    destruct (outcome env (OpOpen (dataSourceName sc)) w) as [e |] eqn:Ho.
    - rewrite (call_failed env _ _ _ Ho). cbn [fst snd].
      split; [repeat split |].
      exists [Call (OpOpen (dataSourceName sc)) (Some e);
              Log Logrus_Errorf
                "sc.OpenDataSource error; MysqlClient : %#v,%v" (Some e)].
      split; [| reflexivity]. cbn. rewrite <- app_assoc. reflexivity.
    - rewrite (call_served env _ _ Ho). cbn [effect].
      set (w1 := record (Call (OpOpen (dataSourceName sc)) None) w).
      destruct (outcome env OpPing w1) as [e |] eqn:Hp.
      + rewrite (call_failed env _ _ _ Hp). cbn [fst snd].
        split; [repeat split |].
        exists [Call (OpOpen (dataSourceName sc)) None;
                Call OpPing (Some e);
                Log Logrus_Errorf "ping database error; %v" (Some e)].
        split; [| reflexivity]. cbn. rewrite <- !app_assoc. reflexivity.
      + rewrite (call_served env _ _ Hp). cbn [effect].
        rewrite I. cbn [fst snd].
        split; [repeat split |].
        exists [Call (OpOpen (dataSourceName sc)) None; Call OpPing None].
        split; [| reflexivity]. cbn. rewrite <- !app_assoc. reflexivity. }
  destruct S as [S T]. split; [exact S |].
  intros ev Hev. exact (steps_In _ _ _ _ T Hev).
Qed.

Lemma client_without_ddl_path_never_migrates_witness :
  initialFlayway Examples.healthy
    (NewSqliteClient "./test.db"
       (map option_of [CallMaxOpenConns 10; CallDDLPath ""; CallAttempts 5]))
    Examples.fresh
  = (None, Examples.fresh).
Proof.
  apply (client_without_ddl_path_never_migrates Examples.healthy "./test.db"
           [CallMaxOpenConns 10; CallDDLPath ""; CallAttempts 5]
           Examples.fresh).
  reflexivity.
Defined.

(** ** The write methods *)

Section Writes.

Variable env : Env.
Variable sc : SqliteClient.

(** X7.  With the handle at hand, an error of [Prepare] is logged and returned
    by [Insert], [Update] and [Delete] with the result 0; the statement is
    not executed and [schema_version] is as it was. *)
Theorem write_methods_return_prepare_error
  (w w1 : World) (e : error) (sql : string) (args : list value) :
  GetDB env sc w = (None, w1) ->
  outcome env (OpPrepare sql) w1 = Some e ->
  let w2 := record (Log Logrus_Errorf "prepare sqlite error. %v" (Some e))
              (record (Call (OpPrepare sql) (Some e)) w1) in
  Insert env sc sql args w = ((0, Some e), w2) /\
  Update env sc sql args w = ((0, Some e), w2) /\
  Delete env sc sql args w = ((0, Some e), w2) /\
  same_store w w2.
Proof.
  intros Hg Hp w2. unfold Insert, Update, Delete, bind, ret.
  rewrite Hg, (call_failed env _ _ _ Hp). cbn [fst snd].
  repeat split; try reflexivity.
  all: pose proof (GetDB_spec env sc w) as [[A [B C]] _];
    rewrite Hg in A, B, C; cbn [snd] in A, B, C; assumption.
Qed.

(** X8.  A served [Insert] of the ledger's statement with the four columns of a
    record returns the id of the row it appended, which is the next id of
    the table, and no error. *)
Theorem Insert_returns_new_id (sv : SchemaVersion) (w : World) :
  serves env is_read -> serves env is_append -> has_ledger w = true ->
  fst (Insert env sc InsertSchemaVersionSQL (insert_args sv) w)
    = (next_id w, None) /\
  appended sv w (snd (Insert env sc InsertSchemaVersionSQL (insert_args sv) w)) /\
  Id (last (ledger (snd (Insert env sc InsertSchemaVersionSQL
                           (insert_args sv) w))) zeroSchemaVersion)
    = next_id w.
Proof.
  intros Hr Ha Hl. unfold Insert, bind, ret.
  rewrite (GetDB_alive env sc) by (apply Hr; reflexivity). cbn [fst snd].
  rewrite (call_served env).
  2:{ apply outcome_served; [apply Ha; reflexivity |].
      cbn. rewrite Hl. reflexivity. }
  cbn [fst snd]. unfold stm_Exec. rewrite (call_served env).
  2:{ apply outcome_served; [apply Ha; reflexivity |].
      cbn. rewrite Hl. reflexivity. }
  cbn [fst snd]. rewrite effect_prepare, effect_insert.
  split; [reflexivity |]. split.
  - unfold appended. simpl. repeat split. eexists. reflexivity.
  - simpl. rewrite last_last. reflexivity.
Qed.

(** X9.  Insert, then list, then search: after a served append of a record
    whose script is not in the ledger, [SchemaVersionArray] returns the old
    rows followed by the new one, and [findByScript] finds in them a record
    with the script, checksum, duration and status that were appended. *)
Theorem appended_record_is_found (sv : SchemaVersion) (w : World) :
  serves env is_read -> serves env is_append -> has_ledger w = true ->
  findByScript_range (Script sv) (ledger w) = None ->
  exists r,
    fst (SchemaVersionArray env sc (snd (insertSchemaVersion env sc sv w)))
      = (Some (ledger w ++ [r])%list, None) /\
    findByScript (Script sv) (Some (ledger w ++ [r])%list) = Some r /\
    Id r = next_id w /\ Script r = Script sv /\ Checksum r = Checksum sv /\
    ExecutionTime r = ExecutionTime sv /\ Status r = Status sv.
Proof.
  intros Hr Ha Hl Hnew.
  destruct (insertSchemaVersion_served env sc sv w Hr Ha Hl)
    as [[H1 [H2 [created L]]] _].
  set (w1 := snd (insertSchemaVersion env sc sv w)) in *.
  assert (Hl1 : has_ledger w1 = true) by congruence.
  pose proof (SchemaVersionArray_served env sc w1 Hr Hl1) as E.
  pose proof (SchemaVersionArray_result env sc w1 E) as R.
  eexists. split; [| split].
  - destruct (SchemaVersionArray env sc w1) as [[l e] w2].
    cbn [fst snd] in *. rewrite R, E, L. reflexivity.
  - unfold findByScript. cbn [elems].
    rewrite findByScript_range_app, Hnew. cbn.
    rewrite String.eqb_refl. reflexivity.
  - cbn. repeat split.
Qed.

End Writes.

Lemma write_methods_return_prepare_error_witness :
  fst (Insert Examples.busy_at_first Examples.client
         "insert into t values (2)" [] Examples.fresh)
    = (0, Some Examples.locked) /\
  fst (Update Examples.busy_at_first Examples.client
         "update t set x = 2" [] Examples.fresh)
    = (0, Some Examples.locked).
Proof.
  split.
  - destruct (write_methods_return_prepare_error Examples.busy_at_first
                Examples.client Examples.fresh
                (record (Call OpPing None) Examples.fresh)
                Examples.locked "insert into t values (2)" [])
      as [H _]; [reflexivity | reflexivity |].
    rewrite H. reflexivity.
  - destruct (write_methods_return_prepare_error Examples.busy_at_first
                Examples.client Examples.fresh
                (record (Call OpPing None) Examples.fresh)
                Examples.locked "update t set x = 2" [])
      as [_ [H _]]; [reflexivity | reflexivity |].
    rewrite H. reflexivity.
Defined.

(** ** Transactions and counts *)

Section Methods.

Variable env : Env.
Variable sc : SqliteClient.


(** X11.  [Transaction] with a callback that returns nil returns what [Commit]
    returns, and calls no [Rollback]. *)
Theorem Transaction_commits
  (callback : M (option error)) (w w1 w2 w3 : World) :
  GetDB env sc w = (None, w1) ->
  call env OpBegin w1 = (None, w2) ->
  callback w2 = (None, w3) ->
  Transaction env sc callback w = call env OpCommit w3 /\
  fst (Transaction env sc callback w) = outcome env OpCommit w3 /\
  trace (snd (Transaction env sc callback w)) =
    (trace w3 ++ [Call OpCommit (outcome env OpCommit w3)])%list.
Proof.
  intros Hg Hb Hc. unfold Transaction, bind, ret.
  rewrite Hg, Hb, Hc. split; [reflexivity |].
  unfold call. destruct (outcome env OpCommit w3); split; reflexivity.
Qed.

(** X12.  [Count] with a served scan returns the count and nil, whether
    the deferred [Commit] succeeds or not; the commit is the last thing it
    does. *)
Theorem Count_ignores_commit_error
  (w w1 w2 : World) (sql : string) (args : list value) :
  GetDB env sc w = (None, w1) ->
  call env OpBegin w1 = (None, w2) ->
  outcome env (OpQueryRowScan sql args) w2 = None ->
  fst (Count env sc sql args w) = (user_count env sql args w2, None) /\
  exists r, last (trace (snd (Count env sc sql args w))) (Call OpPing None)
            = Call OpCommit r.
Proof.
  intros Hg Hb Hs. unfold Count, bind, ret.
  rewrite Hg, Hb, (call_served env _ _ Hs). cbn [fst snd].
  unfold call.
  destruct (outcome env OpCommit _) as [r |]; cbn [fst snd];
    (split; [reflexivity |]); eexists; simpl; rewrite last_last; reflexivity.
Qed.

End Methods.

(** ** [Query] *)

Section Queries.

Variable env : Env.
Variable sc : SqliteClient.

(** *** [Query] *)

Lemma field_func_eq {A : Type} (g : Row -> A -> A)
  (err : Row -> option error) (r : Row) (acc : A) (w : World) :
  field_func g err r acc w = ((g r acc, err r), w).
Proof. reflexivity. Qed.

Lemma Query_range_all {A : Type} (q : string) (g : Row -> A -> A)
  (rows : list Row) :
  (forall w, fault env (OpNext q) w = None) ->
  forall acc w,
    fst (Query_range env q (field_func g (fun _ => None)) rows acc w)
    = (fold_left (fun a r => g r a) rows acc, None) /\
    trace (snd (Query_range env q (field_func g (fun _ => None)) rows acc w))
    = (trace w ++ repeat (Call (OpNext q) None) (S (List.length rows)))%list.
Proof.
  intros Hn.
  assert (Ho : forall w, outcome env (OpNext q) w = None)
    by (intros w; apply outcome_served; [apply Hn | reflexivity]).
  induction rows as [| r rest IH]; intros acc w;
    cbn [Query_range]; unfold bind, ret;
    rewrite (call_served env _ _ (Ho w)); cbn [fst snd].
  - split; reflexivity.
  - rewrite field_func_eq. cbn [fst snd].
    destruct (IH (g r acc) (record (Call (OpNext q) None)
                              (effect env (OpNext q) w))) as [R T].
    split; [exact R |]. rewrite T. cbn [effect record trace repeat].
    rewrite <- app_assoc. reflexivity.
Qed.

Lemma Query_range_stop {A : Type} (q : string) (g : Row -> A -> A)
  (err : Row -> option error) (post : list Row) (r : Row) (e : error) :
  (forall w, fault env (OpNext q) w = None) ->
  err r = Some e ->
  forall pre acc w,
    (forall x, In x pre -> err x = None) ->
    fst (Query_range env q (field_func g err) (pre ++ r :: post) acc w)
    = (g r (fold_left (fun a x => g x a) pre acc), Some e) /\
    trace (snd (Query_range env q (field_func g err) (pre ++ r :: post)
                  acc w))
    = (trace w ++ repeat (Call (OpNext q) None) (S (List.length pre)))%list.
Proof.
  intros Hn He.
  assert (Ho : forall w, outcome env (OpNext q) w = None)
    by (intros w; apply outcome_served; [apply Hn | reflexivity]).
  induction pre as [| x pre IH]; intros acc w Hpre;
    cbn [Query_range app]; unfold bind, ret;
    rewrite (call_served env _ _ (Ho w)); cbn [fst snd];
    rewrite field_func_eq; cbn [fst snd].
  - rewrite He. split; reflexivity.
  - rewrite (Hpre x (or_introl eq_refl)).
    destruct (IH (g x acc) (record (Call (OpNext q) None)
                              (effect env (OpNext q) w))
                (fun y Hy => Hpre y (or_intror Hy))) as [R T].
    split; [exact R |]. rewrite T. cbn [effect record trace repeat].
    rewrite <- app_assoc. reflexivity.
Qed.

(** X13.  With the handle, the query and the iteration served, [Query] hands
    every row of the result to the callback, once and in order, and returns
    nil. *)
Theorem Query_visits_rows_in_order {A : Type} (q : string)
  (g : Row -> A -> A) (args : list value) (acc : A) (w w1 : World) :
  GetDB env sc w = (None, w1) ->
  outcome env (OpQuery q args) w1 = None ->
  (forall w', fault env (OpNext q) w' = None) ->
  fst (Query env sc q (field_func g (fun _ => None)) args acc w)
  = (fold_left (fun a r => g r a) (result_rows env q args w1) acc, None).
Proof.
  intros Hg Hq Hn. unfold Query, bind, ret.
  rewrite Hg, (call_served env _ _ Hq).
  apply Query_range_all. exact Hn.
Qed.

(** X14.  [Query] stops at the first row on which the callback returns an error:
    the error is returned, what the callback stored up to and including
    that row is kept, and the iteration is not advanced any further. *)
Theorem Query_stops_at_first_error {A : Type} (q : string)
  (g : Row -> A -> A) (err : Row -> option error) (args : list value)
  (acc : A) (w w1 : World) (pre post : list Row) (r : Row) (e : error) :
  GetDB env sc w = (None, w1) ->
  outcome env (OpQuery q args) w1 = None ->
  (forall w', fault env (OpNext q) w' = None) ->
  result_rows env q args w1 = (pre ++ r :: post)%list ->
  (forall x, In x pre -> err x = None) ->
  err r = Some e ->
  fst (Query env sc q (field_func g err) args acc w)
  = (g r (fold_left (fun a x => g x a) pre acc), Some e) /\
  trace (snd (Query env sc q (field_func g err) args acc w))
  = (trace w1 ++ Call (OpQuery q args) None ::
     repeat (Call (OpNext q) None) (S (List.length pre)))%list.
Proof.
  intros Hg Hq Hn Hrows Hpre He. unfold Query, bind, ret.
  rewrite Hg, (call_served env _ _ Hq), Hrows.
  destruct (Query_range_stop q g err post r e Hn He pre acc
              (record (Call (OpQuery q args) None)
                 (effect env (OpQuery q args) w1)) Hpre) as [R T].
  split; [exact R |]. rewrite T. cbn [effect record trace].
  rewrite <- app_assoc. reflexivity.
Qed.

End Queries.

(** ** What a run writes *)

Section Runs.

Variable env : Env.
Variable sc : SqliteClient.

(** *** What a run can write *)

Lemma written_by_run_incl (files files' : list string) (r : SchemaVersion) :
  incl files files' ->
  written_by_run env sc files r -> written_by_run env sc files' r.
Proof. intros I [A B]. split; [apply I; exact A | exact B]. Qed.

Lemma readFile_writes (name : string) (svs : slice SchemaVersion)
  (w : World) :
  exists added,
    ledger (snd (readFile env sc name svs w)) = (ledger w ++ added)%list /\
    Forall (written_by_run env sc [name]) added.
Proof.
  destruct (outcome env (OpReadFile (script_path sc name)) w) as [e |] eqn:H.
  - rewrite (readFile_unreadable env sc _ svs _ _ H). cbn [fst snd].
    exists []. rewrite app_nil_r. split; [reflexivity | constructor].
  - destruct (findByScript name svs) as [sv |] eqn:F.
    + destruct (String.eqb (Checksum sv) (checksum_of env sc name)) eqn:C.
      * rewrite (readFile_skipped env sc _ _ _ _ H F C). cbn [fst snd].
        exists []. rewrite app_nil_r. split; [reflexivity | constructor].
      * rewrite (readFile_changed env sc _ _ _ _ H F C). cbn [fst snd].
        exists []. rewrite app_nil_r. split; [reflexivity | constructor].
    + rewrite (readFile_new env sc _ _ _ H F). cbn [fst snd].
      set (w1 := record (Call (OpReadFile (script_path sc name)) None) w).
      destruct (ExecDDL_spec env sc (file env (script_path sc name)) w1)
        as [El _].
      set (w2 := snd (ExecDDL env sc (file env (script_path sc name)) w1))
        in *.
      set (err := fst (ExecDDL env sc (file env (script_path sc name)) w1)).
      destruct (insertSchemaVersion_spec env sc (attempt env sc name err w2)
                  w2) as [_ [[_ [L _]] | [_ [_ [c L]]]]].
      * exists []. rewrite app_nil_r, L, El. split; [reflexivity | constructor].
      * eexists [_]. rewrite L, El. split; [reflexivity |].
        constructor; [| constructor].
        split; [left; reflexivity |]. split; [reflexivity |].
        cbn. destruct err; [right | left]; reflexivity.
Qed.

Lemma executeFlayway_range_writes (files : list string)
  (svs : slice SchemaVersion) :
  forall w,
    exists added,
      ledger (snd (executeFlayway_range env sc files svs w))
      = (ledger w ++ added)%list /\
      Forall (written_by_run env sc files) added.
Proof.
  induction files as [| f rest IH]; intros w;
    cbn [executeFlayway_range]; unfold bind, ret.
  - exists []. rewrite app_nil_r. split; [reflexivity | constructor].
  - destruct (readFile_writes f svs w) as [a1 [L1 F1]].
    destruct (readFile env sc f svs w) as [[e |] w1]; cbn [fst snd] in *.
    + exists a1. split; [exact L1 |].
      eapply Forall_impl; [| exact F1]. intros r.
      apply written_by_run_incl. intros x [<- | []]. left. reflexivity.
    + destruct (IH w1) as [a2 [L2 F2]].
      exists (a1 ++ a2)%list. split.
      * rewrite L2, L1, app_assoc. reflexivity.
      * apply Forall_app. split.
        -- eapply Forall_impl; [| exact F1]. intros r.
           apply written_by_run_incl. intros x [<- | []]. left. reflexivity.
        -- eapply Forall_impl; [| exact F2]. intros r.
           apply written_by_run_incl. intros x Hx. right. exact Hx.
Qed.

Lemma executeFlayway_writes (w : World) :
  exists added,
    ledger (snd (executeFlayway env sc w)) = (ledger w ++ added)%list /\
    Forall (written_by_run env sc (dir env (ddlPath (config sc)))) added.
Proof.
  destruct (outcome env (OpReadDir (ddlPath (config sc))) w) as [e |] eqn:H.
  - rewrite (executeFlayway_unlistable env sc _ _ H). cbn [fst snd].
    exists []. rewrite app_nil_r. split; [reflexivity | constructor].
  - rewrite (executeFlayway_listed env sc _ H). cbn zeta.
    set (w1 := record (Call (OpReadDir (ddlPath (config sc))) None) w).
    destruct (SchemaVersionArray_reads env sc w1) as [[_ [S _]] _].
    change (ledger w1) with (ledger w) in S.
    destruct (snd (fst (SchemaVersionArray env sc w1))) as [e |].
    + cbn [snd]. exists []. rewrite app_nil_r.
      split; [exact S | constructor].
    + destruct (hasError (fst (fst (SchemaVersionArray env sc w1))))
        as [e |].
      * cbn [snd]. exists []. rewrite app_nil_r.
        split; [exact S | constructor].
      * destruct (executeFlayway_range_writes
                    (dir env (ddlPath (config sc)))
                    (fst (fst (SchemaVersionArray env sc w1)))
                    (snd (SchemaVersionArray env sc w1))) as [a [L F]].
        exists a. rewrite L, S. split; [reflexivity | exact F].
Qed.

Lemma initialFlayway_writes (w : World) :
  exists added,
    ledger (snd (initialFlayway env sc w)) = (ledger w ++ added)%list /\
    Forall (written_by_run env sc (dir env (ddlPath (config sc)))) added.
Proof.
  destruct (flyway (config sc)) eqn:Hf.
  - rewrite (initialFlayway_on env sc _ Hf).
    destruct (initialSchemaVersion_spec env sc w) as [L _].
    destruct (fst (initialSchemaVersion env sc w)) as [e |].
    + cbn [snd]. exists []. rewrite app_nil_r.
      split; [exact L | constructor].
    + destruct (executeFlayway_writes
                  (snd (initialSchemaVersion env sc w))) as [a [La F]].
      exists a. rewrite La, L. split; [reflexivity | exact F].
  - rewrite (initialFlayway_off env sc _ Hf). cbn [snd].
    exists []. rewrite app_nil_r. split; [reflexivity | constructor].
Qed.

(** X15.  Whatever the environment does, and as long as no script
    touches [schema_version] itself, [Initial] leaves the rows of
    [schema_version] in place and only adds rows at the end; each added row
    is for a script of the directory, carries the checksum of its content
    and has status SUCCESS or ERROR; an existing table stays. *)
Theorem Initial_only_appends_script_rows (w : World) :
  (has_ledger w = true -> has_ledger (snd (Initial env sc w)) = true) /\
  exists added,
    ledger (snd (Initial env sc w)) = (ledger w ++ added)%list /\
    Forall (written_by_run env sc (dir env (ddlPath (config sc)))) added.
Proof.
  unfold Initial, OpenDataSource, Ping, bind, ret, log.
  assert (N : (has_ledger w = true -> has_ledger w = true) /\
              exists added, ledger w = (ledger w ++ added)%list /\
                Forall (written_by_run env sc
                          (dir env (ddlPath (config sc)))) added).
  { split; [auto |]. exists []. rewrite app_nil_r.
    split; [reflexivity | constructor]. }
  destruct (outcome env (OpOpen (dataSourceName sc)) w) as [e |] eqn:Ho.
  - rewrite (call_failed env _ _ _ Ho). cbn [fst snd]. exact N.
  - rewrite (call_served env _ _ Ho). cbn [effect].
    set (w1 := record (Call (OpOpen (dataSourceName sc)) None) w).
    destruct (outcome env OpPing w1) as [e |] eqn:Hp.
    + rewrite (call_failed env _ _ _ Hp). cbn [fst snd]. exact N.
    + rewrite (call_served env _ _ Hp). cbn [effect].
      set (w2 := record (Call OpPing None) w1).
      destruct (initialFlayway_spec env sc w2) as [[G _] _].
      destruct (initialFlayway_writes w2) as [a [L F]].
      destruct (initialFlayway env sc w2) as [[e |] w3]; cbn [fst snd] in *.
      * split; [exact G |]. exists a. split; [exact L | exact F].
      * split; [exact G |]. exists a. split; [exact L | exact F].
Qed.

End Runs.

(** ** A run in a healthy environment *)

Section Order.

Variable env : Env.
Variable sc : SqliteClient.

Lemma executeFlayway_range_order (files : list string)
  (l0 : list SchemaVersion) :
  serves env is_read -> serves env is_fs -> serves env is_append ->
  forall w,
    has_ledger w = true ->
    fst (executeFlayway_range env sc files (Some l0) w) = None ->
    exists added,
      ledger (snd (executeFlayway_range env sc files (Some l0) w))
      = (ledger w ++ added)%list /\
      map Script added = filter (fun f => negb (recorded l0 f)) files /\
      Forall (applied env sc) added.
Proof.
  intros Hr Hfs Ha.
  induction files as [| f rest IH]; intros w Hl;
    cbn [executeFlayway_range filter]; unfold bind, ret.
  - intros _. cbn [fst snd]. exists []. rewrite app_nil_r.
    repeat split. constructor.
  - assert (Hrd : outcome env (OpReadFile (script_path sc f)) w = None)
      by (apply outcome_served; [apply Hfs |]; reflexivity).
    unfold recorded at 1.
    destruct (findByScript_range f l0) as [sv |] eqn:F.
    + destruct (String.eqb (Checksum sv) (checksum_of env sc f)) eqn:C.
      * rewrite (readFile_skipped env sc f (Some l0) w sv Hrd F C).
        intros H. cbn [negb].
        exact (IH (record (Call (OpReadFile (script_path sc f)) None) w)
                 Hl H).
      * rewrite (readFile_changed env sc f (Some l0) w sv Hrd F C).
        intros H. discriminate H.
    + rewrite (readFile_new env sc f (Some l0) w Hrd F).
      set (w1 := record (Call (OpReadFile (script_path sc f)) None) w).
      destruct (ExecDDL_spec env sc (file env (script_path sc f)) w1)
        as [El [En [Eh _]]].
      destruct (ExecDDL env sc (file env (script_path sc f)) w1)
        as [[e |] w2]; cbn [fst snd] in *.
      * intros H. discriminate H.
      * assert (Hl2 : has_ledger w2 = true) by (apply Eh; exact Hl).
        destruct (insertSchemaVersion_served env sc
                    (attempt env sc f None w2) w2 Hr Ha Hl2)
          as [[Ah [An [c Al]]] _].
        set (w3 := snd (insertSchemaVersion env sc
                          (attempt env sc f None w2) w2)) in *.
        intros H.
        assert (Hl3 : has_ledger w3 = true) by congruence.
        destruct (IH w3 Hl3 H) as [added [L [O G]]].
        eexists (_ :: added). split; [| split].
        -- rewrite L, Al, El. rewrite <- app_assoc. reflexivity.
        -- cbn [map negb Script attempt]. rewrite O. reflexivity.
        -- constructor; [split; reflexivity | exact G].
Qed.

(** X16.  A run that returns nil, in an environment that serves the
    reads, the directory and the appends, has appended one row for each script of the
    directory that was not in the ledger, in the order of the listing, each
    with status SUCCESS and the checksum of the script's content; the
    scripts already recorded got no row. *)
Theorem run_records_new_scripts_in_order (w : World) :
  flyway (config sc) = true ->
  serves env is_read -> serves env is_fs -> serves env is_append ->
  fst (initialFlayway env sc w) = None ->
  exists added,
    ledger (snd (initialFlayway env sc w)) = (ledger w ++ added)%list /\
    map Script added =
      filter (fun f => negb (recorded (ledger w) f))
        (dir env (ddlPath (config sc))) /\
    Forall (applied env sc) added.
Proof.
  intros Hf Hr Hfs Ha. rewrite (initialFlayway_on env sc _ Hf).
  destruct (initialSchemaVersion_spec env sc w) as [L0 [_ [_ [Sh _]]]].
  destruct (initialSchemaVersion env sc w) as [[e |] w0]; cbn [fst snd] in *;
    [intros H; discriminate H |].
  specialize (Sh eq_refl).
  destruct (executeFlayway_healthy env sc w0 Hr Hfs Sh)
    as [w2 [[A [B C]] [_ E]]].
  rewrite E.
  destruct (hasError_range (ledger w0)) as [e |] eqn:He;
    [intros H; discriminate H |].
  intros H.
  assert (Hl2 : has_ledger w2 = true) by congruence.
  destruct (executeFlayway_range_order
              (dir env (ddlPath (config sc))) (ledger w0) Hr Hfs Ha w2 Hl2 H)
    as [added [L [O G]]].
  exists added. rewrite L, B, <- L0. repeat split; assumption.
Qed.

(** *** [initialSchemaVersion], [readFile], [Initial] *)

(** X17.  [initialSchemaVersion], when it returns nil, leaves a database in which
    [schema_version] exists, with the rows and the next id it had; when the
    table was there already, it only read the database. *)
Theorem initialSchemaVersion_creates_once (w : World) :
  fst (initialSchemaVersion env sc w) = None ->
  has_ledger (snd (initialSchemaVersion env sc w)) = true /\
  ledger (snd (initialSchemaVersion env sc w)) = ledger w /\
  next_id (snd (initialSchemaVersion env sc w)) = next_id w /\
  (has_ledger w = true ->
   forall ev, In ev (trace (snd (initialSchemaVersion env sc w))) ->
     In ev (trace w) \/ read_event ev = true).
Proof.
  intros H.
  destruct (initialSchemaVersion_spec env sc w) as [L [N [R [T _]]]].
  split; [exact (T H) |]. split; [exact L |]. split; [exact N |].
  intros Hl ev Hev. destruct (R Hl) as [_ S].
  exact (steps_In _ _ _ _ S Hev).
Qed.

(** X18.  A script that is among the fetched records is never executed again and
    gets no new row: [readFile] only reads the file, and returns nil when
    the recorded checksum is the one of the content and the error that
    carries the record otherwise. *)
Theorem readFile_recorded_not_executed (name : string)
  (svs : slice SchemaVersion) (sv : SchemaVersion) (w : World) :
  outcome env (OpReadFile (script_path sc name)) w = None ->
  findByScript name svs = Some sv ->
  readFile env sc name svs w =
    (if String.eqb (Checksum sv) (checksum_of env sc name) then None
     else Some (FileChanged sv),
     record (Call (OpReadFile (script_path sc name)) None) w).
Proof.
  intros H F.
  destruct (String.eqb (Checksum sv) (checksum_of env sc name)) eqn:C.
  - apply (readFile_skipped env sc _ _ _ _ H F C).
  - apply (readFile_changed env sc _ _ _ _ H F C).
Qed.

End Order.

(** ** Reading the ledger and the scripts *)

Section Reads.

Variable env : Env.
Variable sc : SqliteClient.

(** X19.  An edit of one byte of a recorded script is noticed: when the
    record carries the checksum of the old content and the file now differs
    from it in one byte, [readFile] returns the error that carries the
    record, after reading the file and nothing else. *)
Theorem readFile_notices_one_byte_edit (name : string)
  (svs : slice SchemaVersion) (sv : SchemaVersion) (w : World)
  (pre post : string) (c1 c2 : ascii) :
  outcome env (OpReadFile (script_path sc name)) w = None ->
  findByScript name svs = Some sv ->
  Checksum sv = FormatUint10 (fst (hash64 (pre ++ String c1 post))) ->
  file env (script_path sc name) = pre ++ String c2 post ->
  c1 <> c2 ->
  readFile env sc name svs w =
    (Some (FileChanged sv),
     record (Call (OpReadFile (script_path sc name)) None) w).
Proof.
  intros H F C E N.
  apply (readFile_changed env sc _ _ _ _ H F).
  apply String.eqb_neq. unfold checksum_of. rewrite C, E.
  intros D. apply (hash64_one_byte pre post c1 c2 N).
  apply FormatUint10_inj in D; [exact D | |]; apply hash64_range.
Qed.

(** X20.  [HasTable] for [schema_version], when it returns no error, tells
    whether the table exists; it only reads the database. *)
Theorem HasTable_reports_schema_version (w : World) :
  snd (fst (HasTable env sc "schema_version" w)) = None ->
  fst (fst (HasTable env sc "schema_version" w)) = has_ledger w /\
  same_store w (snd (HasTable env sc "schema_version" w)) /\
  forall ev, In ev (trace (snd (HasTable env sc "schema_version" w))) ->
    In ev (trace w) \/ read_event ev = true.
Proof.
  intros H. split; [apply HasTable_exists; exact H |].
  destruct (HasTable_reads env sc "schema_version" w) as [S [R _]].
  split; [exact S |]. intros ev Hev. exact (steps_In _ _ _ _ R Hev).
Qed.

End Reads.

(** ** The further properties on the example environments *)

Lemma Insert_returns_new_id_witness :
  fst (Insert Examples.healthy Examples.client InsertSchemaVersionSQL
         (insert_args Examples.more) Examples.once) = (3, None).
Proof.
  destruct (Insert_returns_new_id Examples.healthy Examples.client
              Examples.more Examples.once) as [H _].
  - apply serves_healthy.
  - apply serves_healthy.
  - vm_compute; reflexivity.
  - rewrite H. vm_compute; reflexivity.
Defined.

Lemma appended_record_is_found_witness :
  exists r,
    findByScript "003_more.sql" (Some (ledger Examples.once ++ [r])%list)
      = Some r /\
    Id r = 3 /\ Checksum r = "42".
Proof.
  destruct (appended_record_is_found Examples.healthy Examples.client
              Examples.more Examples.once)
    as [r [_ [F [I [_ [C _]]]]]].
  - apply serves_healthy.
  - apply serves_healthy.
  - vm_compute; reflexivity.
  - vm_compute; reflexivity.
  - exists r. split; [exact F |]. split; [rewrite I | rewrite C];
      vm_compute; reflexivity.
Defined.


Lemma Transaction_commits_witness :
  fst (Transaction Examples.no_commit Examples.client (ret None)
         Examples.fresh) = Some Examples.locked.
Proof.
  destruct (Transaction_commits Examples.no_commit Examples.client
              (ret None) Examples.fresh
              (record (Call OpPing None) Examples.fresh)
              (record (Call OpBegin None)
                 (record (Call OpPing None) Examples.fresh))
              (record (Call OpBegin None)
                 (record (Call OpPing None) Examples.fresh)))
    as [_ [H _]].
  - reflexivity.
  - reflexivity.
  - reflexivity.
  - rewrite H. reflexivity.
Defined.

Lemma Count_ignores_commit_error_witness :
  fst (Count Examples.no_commit Examples.client "select count(1) from t" []
         Examples.fresh) = (7, None).
Proof.
  destruct (Count_ignores_commit_error Examples.no_commit Examples.client
              Examples.fresh
              (record (Call OpPing None) Examples.fresh)
              (record (Call OpBegin None)
                 (record (Call OpPing None) Examples.fresh))
              "select count(1) from t" []) as [H _].
  - reflexivity.
  - reflexivity.
  - reflexivity.
  - rewrite H. reflexivity.
Defined.

Lemma Query_visits_rows_in_order_witness :
  fst (Query Examples.healthy Examples.client SelectSchemaVersionSQL
         (field_func (fun r n => n + 1) (fun _ => None)) [] 0 Examples.once)
  = (2, None).
Proof.
  rewrite (Query_visits_rows_in_order Examples.healthy Examples.client
             SelectSchemaVersionSQL (fun r n => n + 1) [] 0 Examples.once
             (record (Call OpPing None) Examples.once)).
  - vm_compute; reflexivity.
  - vm_compute; reflexivity.
  - vm_compute; reflexivity.
  - reflexivity.
Defined.

Lemma Query_stops_at_first_error_witness :
  fst (Query Examples.healthy Examples.client SelectSchemaVersionSQL
         (field_func (fun r n => n + 1) (fun _ => Some Examples.locked))
         [] 0 Examples.once)
  = (1, Some Examples.locked).
Proof.
  destruct (Query_stops_at_first_error Examples.healthy Examples.client
              SelectSchemaVersionSQL (fun r n => n + 1)
              (fun _ => Some Examples.locked) [] 0 Examples.once
              (record (Call OpPing None) Examples.once)
              [] (map row_of_sv (tl (ledger Examples.once)))
              (row_of_sv (hd zeroSchemaVersion (ledger Examples.once)))
              Examples.locked) as [H _].
  - vm_compute; reflexivity.
  - vm_compute; reflexivity.
  - reflexivity.
  - vm_compute; reflexivity.
  - intros x [].
  - reflexivity.
  - rewrite H. reflexivity.
Defined.

Lemma initialSchemaVersion_creates_once_witness :
  has_ledger (snd (initialSchemaVersion Examples.healthy Examples.client
                     Examples.fresh)) = true /\
  ledger (snd (initialSchemaVersion Examples.healthy Examples.client
                 Examples.fresh)) = [].
Proof.
  destruct (initialSchemaVersion_creates_once Examples.healthy
              Examples.client Examples.fresh) as [H [L _]].
  - vm_compute; reflexivity.
  - split; [exact H | exact L].
Defined.

Lemma readFile_recorded_not_executed_witness :
  readFile Examples.healthy Examples.client "001_init.sql"
    (Some (ledger Examples.once)) Examples.once
  = (None, record (Call (OpReadFile "db/001_init.sql") None) Examples.once).
Proof.
  rewrite (readFile_recorded_not_executed Examples.healthy Examples.client
             "001_init.sql" (Some (ledger Examples.once))
             (hd zeroSchemaVersion (ledger Examples.once)) Examples.once).
  - vm_compute; reflexivity.
  - vm_compute; reflexivity.
  - vm_compute; reflexivity.
Defined.

Lemma readFile_notices_one_byte_edit_witness :
  fst (readFile Examples.touched Examples.client "001_init.sql"
         (Some (ledger Examples.once)) Examples.once)
  = Some (FileChanged (hd zeroSchemaVersion (ledger Examples.once))).
Proof.
  rewrite (readFile_notices_one_byte_edit Examples.touched Examples.client
             "001_init.sql" (Some (ledger Examples.once))
             (hd zeroSchemaVersion (ledger Examples.once)) Examples.once
             "create table if not exists t (" " integer)" "x" "y").
  - reflexivity.
  - vm_compute; reflexivity.
  - vm_compute; reflexivity.
  - vm_compute; reflexivity.
  - vm_compute; reflexivity.
  - intros E. discriminate E.
Defined.

Lemma HasTable_reports_schema_version_witness :
  fst (fst (HasTable Examples.healthy Examples.client "schema_version"
              Examples.fresh)) = false /\
  fst (fst (HasTable Examples.healthy Examples.client "schema_version"
              Examples.once)) = true.
Proof.
  split.
  - destruct (HasTable_reports_schema_version Examples.healthy
                Examples.client Examples.fresh) as [H _];
      [vm_compute; reflexivity | exact H].
  - destruct (HasTable_reports_schema_version Examples.healthy
                Examples.client Examples.once) as [H _];
      [vm_compute; reflexivity | rewrite H; vm_compute; reflexivity].
Defined.

Lemma run_records_new_scripts_in_order_witness :
  exists added,
    ledger Examples.once = ([] ++ added)%list /\
    map Script added = ["001_init.sql"; "002_seed.sql"].
Proof.
  destruct (run_records_new_scripts_in_order Examples.healthy
              Examples.client Examples.fresh) as [added [L [O _]]].
  - reflexivity.
  - apply serves_healthy.
  - apply serves_healthy.
  - apply serves_healthy.
  - vm_compute; reflexivity.
  - exists added. split; [exact L | exact O].
Defined.

(** ** A script that cannot be read *)

Section Unreadable.

Variable env : Env.
Variable sc : SqliteClient.

(** X21.  A script of the listing that cannot be read stops the run: the
    error of the read is returned, no row is appended for the script, and
    the scripts after it are not read. *)
Theorem unreadable_script_stops_run
  (w wl w1 : World) (pre post : list string) (name : string)
  (svs : slice SchemaVersion) (e : error) :
  flyway (config sc) = true ->
  fst (initialSchemaVersion env sc w) = None ->
  outcome env (OpReadDir (ddlPath (config sc)))
    (snd (initialSchemaVersion env sc w)) = None ->
  dir env (ddlPath (config sc)) = (pre ++ name :: post)%list ->
  SchemaVersionArray env sc
    (record (Call (OpReadDir (ddlPath (config sc))) None)
       (snd (initialSchemaVersion env sc w))) = ((svs, None), wl) ->
  hasError svs = None ->
  executeFlayway_range env sc pre svs wl = (None, w1) ->
  outcome env (OpReadFile (script_path sc name)) w1 = Some e ->
  initialFlayway env sc w =
    (Some e, record (Call (OpReadFile (script_path sc name)) (Some e)) w1) /\
  ledger (snd (initialFlayway env sc w)) = ledger w1.
Proof.
  intros Hf He Hd Hdir Hsva Herr Hpre Hrd.
  assert (R : initialFlayway env sc w =
              (Some e,
               record (Call (OpReadFile (script_path sc name)) (Some e)) w1)).
  { rewrite (initialFlayway_on env sc _ Hf), He.
    rewrite (executeFlayway_listed env sc _ Hd). cbn zeta.
    rewrite Hsva. cbn [fst snd]. rewrite Herr, Hdir.
    rewrite executeFlayway_range_app, Hpre.
    cbn [executeFlayway_range]. unfold bind, ret.
    rewrite (readFile_unreadable env sc _ _ _ _ Hrd). reflexivity. }
  split; [exact R |]. rewrite R. reflexivity.
Qed.

End Unreadable.

Lemma unreadable_script_stops_run_witness :
  fst (initialFlayway Examples.torn Examples.client Examples.fresh)
    = Some Examples.no_dir /\
  map Script (ledger (snd (initialFlayway Examples.torn Examples.client
                             Examples.fresh))) = ["001_init.sql"].
Proof.
  destruct (unreadable_script_stops_run Examples.torn Examples.client
              Examples.fresh
              (Examples.at_loop Examples.torn Examples.fresh)
              (snd (executeFlayway_range Examples.torn Examples.client
                      ["001_init.sql"]
                      (Examples.fetched Examples.torn Examples.fresh)
                      (Examples.at_loop Examples.torn Examples.fresh)))
              ["001_init.sql"] [] "002_seed.sql"
              (Examples.fetched Examples.torn Examples.fresh)
              Examples.no_dir) as [H L].
  - vm_compute; reflexivity.
  - vm_compute; reflexivity.
  - vm_compute; reflexivity.
  - vm_compute; reflexivity.
  - vm_compute; reflexivity.
  - vm_compute; reflexivity.
  - vm_compute; reflexivity.
  - vm_compute; reflexivity.
  - rewrite L, H. split; vm_compute; reflexivity.
Defined.
